(** * Flash Card App: the deck state manager of [src/flashcard-app/src/App.js]

    The component [App] keeps its state in React hooks and changes it in
    event handlers.  Each handler is embedded as a function on the record
    [state]; what the handler reads from its surroundings (the file that was
    picked, the answer to the confirmation dialog, the numbers drawn from
    [Math.random]) is an argument, and what it shows in an [alert] is a
    second result. *)

From Stdlib Require Import ZArith NArith QArith Qround Lia List String Ascii
  DecimalString DecimalPos.
From stdpp Require Import base list.

Set Warnings "-register-all".
Open Scope Z_scope.

(** ** JavaScript strings *)

(** A string is its sequence of UTF-16 code units. *)
Definition jsstring := list N.

Definition str (s : string) : jsstring :=
  map N_of_ascii (list_ascii_of_string s).

(** The characters [String.prototype.trim] and [parseInt] strip: ECMAScript's
    WhiteSpace and LineTerminator. *)
Definition is_white_space (c : N) : bool :=
  match c with
  | 9 | 10 | 11 | 12 | 13 | 32 | 160 | 5760
  | 8232 | 8233 | 8239 | 8287 | 12288 | 65279 => true
  | _ => (8192 <=? c)%N && (c <=? 8202)%N
  end%N.

Fixpoint trim_start (s : jsstring) : jsstring :=
  match s with
  | c :: t => if is_white_space c then trim_start t else s
  | [] => []
  end.

Definition trim (s : jsstring) : jsstring :=
  rev (trim_start (rev (trim_start s))).

(** ** JavaScript numbers, as far as the cursor needs them *)

(** [currentIndex] is produced by [parseInt], [+], [%] and [Math.min] from
    integers, so it is an integer or [NaN].  [Int z] stands for the double
    [z], and the operations below compute with the integers themselves:
    that is what the program's doubles do as long as the operands and the
    result are at most 2^53 in size ([exact_integer]).  Beyond that a double
    rounds and can be [Infinity], which the model leaves out; the theorems
    about sums, [toString] and [parseInt] carry that bound. *)
Inductive jsnum :=
| NaN
| Int (z : Z).

Definition num_add (a b : jsnum) : jsnum :=
  match a, b with
  | Int x, Int y => Int (x + y)
  | _, _ => NaN
  end.

(** [a % b]: the remainder takes the sign of the dividend, and is [NaN] when
    the divisor is zero. *)
Definition num_rem (a b : jsnum) : jsnum :=
  match a, b with
  | Int x, Int y => if y =? 0 then NaN else Int (Z.rem x y)
  | _, _ => NaN
  end.

(** [Math.min(a, b)]. *)
Definition num_min (a b : jsnum) : jsnum :=
  match a, b with
  | Int x, Int y => Int (Z.min x y)
  | _, _ => NaN
  end.

Definition digit_of (c : N) : option Z :=
  if (48 <=? c)%N && (c <=? 57)%N then Some (Z.of_N (c - 48)) else None.

(** The longest prefix of decimal digits, read as a number; [None] when the
    first character is no digit. *)
Fixpoint parse_digits (acc : option Z) (s : jsstring) : option Z :=
  match s with
  | c :: t =>
      match digit_of c with
      | Some d => parse_digits (Some (10 * default 0 acc + d)) t
      | None => acc
      end
  | [] => acc
  end.

(** [parseInt(s, 10)], with the integer of the digits taken exactly (the
    code rounds it to a double: the same number up to 2^53). *)
Definition parseInt (s : jsstring) : jsnum :=
  let s1 := trim_start s in
  let '(sign, s2) :=
    match s1 with
    | c :: t =>
        if (c =? 45)%N then (-1, t)
        else if (c =? 43)%N then (1, t)
        else (1, s1)
    | [] => (1, [])
    end in
  match parse_digits None s2 with
  | Some n => Int (sign * n)
  | None => NaN
  end.

(** ** Values read by [JSON.parse] *)

(** A number is kept as the literal that denotes it: the program never
    computes with one.  An object is the list of its own properties in the
    order JavaScript enumerates them. *)
Inductive value :=
| VNull
| VBool (b : bool)
| VNum (lit : jsstring)
| VStr (s : jsstring)
| VArr (elems : list value)
| VObj (props : list (jsstring * value)).

(** Is a digit of the mantissa of the literal other than 0?  (The literal
    ends its mantissa at [e] or [E].) *)
Fixpoint mantissa_nonzero (lit : jsstring) : bool :=
  match lit with
  | c :: t =>
      if (c =? 101)%N || (c =? 69)%N then false
      else if (49 <=? c)%N && (c <=? 57)%N then true
      else mantissa_nonzero t
  | [] => false
  end.

(** ToBoolean.  A number is true when it is not zero; the model reads that
    off the mathematical value of the literal.  The code tests the double:
    a literal so small that the nearest double is 0 (such as [1e-400]) is
    false there and true here, so what is true in the code is true in the
    model, and not the other way round for such literals. *)
Definition truthy (v : value) : bool :=
  match v with
  | VNull => false
  | VBool b => b
  | VNum lit => mantissa_nonzero lit
  | VStr s => negb (bool_decide (s = []))
  | VArr _ | VObj _ => true
  end.

Fixpoint lookup_prop (k : jsstring) (props : list (jsstring * value))
  : option value :=
  match props with
  | (k', v) :: t => if bool_decide (k' = k) then Some v else lookup_prop k t
  | [] => None
  end.

(** [v.k] for a key [k] that no prototype defines ([front], [back]):
    [inl tt] is the TypeError of reading a property of [null], [inr None] is
    [undefined]. *)
Definition get_prop (v : value) (k : jsstring) : unit + option value :=
  match v with
  | VNull => inl tt
  | VObj props => inr (lookup_prop k props)
  | _ => inr None
  end.

Definition truthy_opt (o : option value) : bool :=
  match o with
  | Some v => truthy v
  | None => false
  end.

Definition mk_card (front back : jsstring) : value :=
  VObj [(str "front", VStr front); (str "back", VStr back)].

(** ** [JSON.parse] *)

(** Characters are written by their code: 34 is the double quote, 44 the
    comma, 45 the minus sign, 46 the dot, 48 to 57 the digits, 58 the colon,
    91 and 93 the square brackets, 92 the backslash, 123 and 125 the braces,
    10 the line feed and 32 the space. *)

Inductive parsed (A : Type) :=
| Parsed (a : A) (rest : jsstring)
| SyntaxError
| OutOfFuel.
Arguments Parsed {A} a rest.
Arguments SyntaxError {A}.
Arguments OutOfFuel {A}.

Definition is_json_ws (c : N) : bool :=
  match c with
  | 9 | 10 | 13 | 32 => true
  | _ => false
  end%N.

Fixpoint skip_ws (s : jsstring) : jsstring :=
  match s with
  | c :: t => if is_json_ws c then skip_ws t else s
  | [] => []
  end.

Definition is_digit (c : N) : bool := (48 <=? c)%N && (c <=? 57)%N.

Definition hex_of (c : N) : option N :=
  if is_digit c then Some (c - 48)%N
  else if (97 <=? c)%N && (c <=? 102)%N then Some (c - 87)%N
  else if (65 <=? c)%N && (c <=? 70)%N then Some (c - 55)%N
  else None.

Definition hex4 (a b c d : N) : option N :=
  match hex_of a, hex_of b, hex_of c, hex_of d with
  | Some x, Some y, Some z, Some w => Some (((x * 16 + y) * 16 + z) * 16 + w)%N
  | _, _, _, _ => None
  end.

(** The character a one-letter escape stands for. *)
Definition unescape (e : N) : option N :=
  match e with
  | 34 => Some 34
  | 92 => Some 92
  | 47 => Some 47
  | 98 => Some 8
  | 102 => Some 12
  | 110 => Some 10
  | 114 => Some 13
  | 116 => Some 9
  | _ => None
  end%N.

Definition cons_parsed (c : N) (p : parsed jsstring) : parsed jsstring :=
  match p with
  | Parsed s r => Parsed (c :: s) r
  | SyntaxError => SyntaxError
  | OutOfFuel => OutOfFuel
  end.

(** The characters of a string literal, after its opening quote and up to
    the closing one. *)
Fixpoint parse_chars (s : jsstring) : parsed jsstring :=
  match s with
  | [] => SyntaxError
  | c :: t =>
      if (c =? 34)%N then Parsed [] t
      else if (c =? 92)%N then
        match t with
        | e :: t' =>
            match unescape e with
            | Some d => cons_parsed d (parse_chars t')
            | None =>
                if (e =? 117)%N then
                  match t' with
                  | h1 :: h2 :: h3 :: h4 :: t'' =>
                      match hex4 h1 h2 h3 h4 with
                      | Some d => cons_parsed d (parse_chars t'')
                      | None => SyntaxError
                      end
                  | _ => SyntaxError
                  end
                else SyntaxError
            end
        | [] => SyntaxError
        end
      else if (c <? 32)%N then SyntaxError
      else cons_parsed c (parse_chars t)
  end.

Fixpoint span_digits (s : jsstring) : jsstring * jsstring :=
  match s with
  | c :: t =>
      if is_digit c then let '(ds, r) := span_digits t in (c :: ds, r)
      else ([], s)
  | [] => ([], [])
  end.

Definition scan_int (s : jsstring) : option (jsstring * jsstring) :=
  match s with
  | c :: t =>
      if (c =? 48)%N then Some ([c], t)
      else if is_digit c then let '(ds, r) := span_digits t in Some (c :: ds, r)
      else None
  | [] => None
  end.

Definition scan_frac (s : jsstring) : option (jsstring * jsstring) :=
  match s with
  | c :: t =>
      if (c =? 46)%N then
        match span_digits t with
        | ([], _) => None
        | (ds, r) => Some (c :: ds, r)
        end
      else Some ([], s)
  | [] => Some ([], [])
  end.

Definition scan_exp (s : jsstring) : option (jsstring * jsstring) :=
  match s with
  | c :: t =>
      if (c =? 101)%N || (c =? 69)%N then
        let '(sg, t1) :=
          match t with
          | d :: t' => if (d =? 43)%N || (d =? 45)%N then ([d], t') else ([], t)
          | [] => ([], [])
          end in
        match span_digits t1 with
        | ([], _) => None
        | (ds, r) => Some (c :: sg ++ ds, r)
        end
      else Some ([], s)
  | [] => Some ([], [])
  end.

(** A JSON number: [-? int frac? exp?]; the literal and what follows it. *)
Definition scan_number (s : jsstring) : option (jsstring * jsstring) :=
  let '(sg, s1) :=
    match s with
    | c :: t => if (c =? 45)%N then ([c], t) else ([], s)
    | [] => ([], [])
    end in
  match scan_int s1 with
  | Some (i, s2) =>
      match scan_frac s2 with
      | Some (f, s3) =>
          match scan_exp s3 with
          | Some (e, s4) => Some (sg ++ i ++ f ++ e, s4)
          | None => None
          end
      | None => None
      end
  | None => None
  end.

Fixpoint strip_prefix (p s : jsstring) : option jsstring :=
  match p, s with
  | [], _ => Some s
  | a :: p', b :: s' => if (a =? b)%N then strip_prefix p' s' else None
  | _ :: _, [] => None
  end.

(** Property keys that are array indices ([0] .. [2^32 - 2] in canonical
    form) are enumerated first, in ascending order. *)
Definition array_index (k : jsstring) : option Z :=
  match k with
  | c :: t =>
      if forallb is_digit k && (negb (c =? 48)%N || bool_decide (t = [])) then
        match parse_digits None k with
        | Some n => if n <=? 4294967294 then Some n else None
        | None => None
        end
      else None
  | [] => None
  end.

Fixpoint has_prop (k : jsstring) (props : list (jsstring * value)) : bool :=
  match props with
  | (k', _) :: t => bool_decide (k' = k) || has_prop k t
  | [] => false
  end.

Fixpoint replace_prop (k : jsstring) (v : value)
  (props : list (jsstring * value)) : list (jsstring * value) :=
  match props with
  | (k', v') :: t =>
      if bool_decide (k' = k) then (k, v) :: t else (k', v') :: replace_prop k v t
  | [] => []
  end.

Fixpoint insert_index (i : Z) (k : jsstring) (v : value)
  (props : list (jsstring * value)) : list (jsstring * value) :=
  match props with
  | (k', v') :: t =>
      match array_index k' with
      | Some i' =>
          if i' <? i then (k', v') :: insert_index i k v t else (k, v) :: props
      | None => (k, v) :: props
      end
  | [] => [(k, v)]
  end.

(** CreateDataProperty on an object built by [JSON.parse]: a key that is
    there keeps its place and takes the new value. *)
Definition define_prop (props : list (jsstring * value))
  (kv : jsstring * value) : list (jsstring * value) :=
  let '(k, v) := kv in
  if has_prop k props then replace_prop k v props
  else match array_index k with
       | Some i => insert_index i k v props
       | None => props ++ [(k, v)]
       end.

Definition make_object (members : list (jsstring * value)) : value :=
  VObj (fold_left define_prop members []).

Fixpoint parse_value (n : nat) (s : jsstring) : parsed value :=
  match n with
  | O => OutOfFuel
  | S n =>
      match skip_ws s with
      | [] => SyntaxError
      | c :: t =>
          if (c =? 123)%N then
            match skip_ws t with
            | c' :: t' =>
                if (c' =? 125)%N then Parsed (VObj []) t'
                else
                  match parse_members n (c' :: t') with
                  | Parsed ms r => Parsed (make_object ms) r
                  | SyntaxError => SyntaxError
                  | OutOfFuel => OutOfFuel
                  end
            | [] => SyntaxError
            end
          else if (c =? 91)%N then
            match skip_ws t with
            | c' :: t' =>
                if (c' =? 93)%N then Parsed (VArr []) t'
                else
                  match parse_elements n (c' :: t') with
                  | Parsed vs r => Parsed (VArr vs) r
                  | SyntaxError => SyntaxError
                  | OutOfFuel => OutOfFuel
                  end
            | [] => SyntaxError
            end
          else if (c =? 34)%N then
            match parse_chars t with
            | Parsed x r => Parsed (VStr x) r
            | SyntaxError => SyntaxError
            | OutOfFuel => OutOfFuel
            end
          else
            match strip_prefix (str "true") (c :: t) with
            | Some r => Parsed (VBool true) r
            | None =>
            match strip_prefix (str "false") (c :: t) with
            | Some r => Parsed (VBool false) r
            | None =>
            match strip_prefix (str "null") (c :: t) with
            | Some r => Parsed VNull r
            | None =>
            match scan_number (c :: t) with
            | Some (lit, r) => Parsed (VNum lit) r
            | None => SyntaxError
            end end end end
      end
  end

with parse_elements (n : nat) (s : jsstring) : parsed (list value) :=
  match n with
  | O => OutOfFuel
  | S n =>
      match parse_value n s with
      | Parsed v r =>
          match skip_ws r with
          | c :: t =>
              if (c =? 44)%N then
                match parse_elements n t with
                | Parsed vs r' => Parsed (v :: vs) r'
                | SyntaxError => SyntaxError
                | OutOfFuel => OutOfFuel
                end
              else if (c =? 93)%N then Parsed [v] t
              else SyntaxError
          | [] => SyntaxError
          end
      | SyntaxError => SyntaxError
      | OutOfFuel => OutOfFuel
      end
  end

with parse_members (n : nat) (s : jsstring)
  : parsed (list (jsstring * value)) :=
  match n with
  | O => OutOfFuel
  | S n =>
      match skip_ws s with
      | c :: t =>
          if (c =? 34)%N then
            match parse_chars t with
            | Parsed k r =>
                match skip_ws r with
                | c' :: t' =>
                    if (c' =? 58)%N then
                      match parse_value n t' with
                      | Parsed v r' =>
                          match skip_ws r' with
                          | c'' :: t'' =>
                              if (c'' =? 44)%N then
                                match parse_members n t'' with
                                | Parsed ms r'' => Parsed ((k, v) :: ms) r''
                                | SyntaxError => SyntaxError
                                | OutOfFuel => OutOfFuel
                                end
                              else if (c'' =? 125)%N then Parsed [(k, v)] t''
                              else SyntaxError
                          | [] => SyntaxError
                          end
                      | SyntaxError => SyntaxError
                      | OutOfFuel => OutOfFuel
                      end
                    else SyntaxError
                | [] => SyntaxError
                end
            | SyntaxError => SyntaxError
            | OutOfFuel => OutOfFuel
            end
          else SyntaxError
      | [] => SyntaxError
      end
  end.

(** [JSON.parse(text)]: one value, then nothing but white space.  [None] is
    the SyntaxError the call throws.  The fuel is enough for every text
    ([parse_value_fuel]). *)
Definition JSON_parse (text : jsstring) : option value :=
  match parse_value (2 * length text + 1) text with
  | Parsed v r => match skip_ws r with [] => Some v | _ :: _ => None end
  | SyntaxError => None
  | OutOfFuel => None
  end.

(** ** [JSON.stringify] *)

Definition hex_digit (d : N) : N := if (d <? 10)%N then (48 + d)%N else (87 + d)%N.

Definition unicode_escape (c : N) : jsstring :=
  [92; 117; hex_digit ((c / 4096) mod 16); hex_digit ((c / 256) mod 16);
   hex_digit ((c / 16) mod 16); hex_digit (c mod 16)]%N.

Definition is_high_surrogate (c : N) : bool := (55296 <=? c)%N && (c <=? 56319)%N.
Definition is_low_surrogate (c : N) : bool := (56320 <=? c)%N && (c <=? 57343)%N.

(** QuoteJSONString without the quotes: the short escapes, [\uXXXX] for the
    other control characters and for a surrogate that has no partner. *)
Fixpoint quote_chars (s : jsstring) : jsstring :=
  match s with
  | [] => []
  | c :: t =>
      if (c =? 8)%N then [92; 98]%N ++ quote_chars t
      else if (c =? 9)%N then [92; 116]%N ++ quote_chars t
      else if (c =? 10)%N then [92; 110]%N ++ quote_chars t
      else if (c =? 12)%N then [92; 102]%N ++ quote_chars t
      else if (c =? 13)%N then [92; 114]%N ++ quote_chars t
      else if (c =? 34)%N then [92; 34]%N ++ quote_chars t
      else if (c =? 92)%N then [92; 92]%N ++ quote_chars t
      else if (c <? 32)%N then unicode_escape c ++ quote_chars t
      else if is_high_surrogate c then
        match t with
        | d :: t' =>
            if is_low_surrogate d then c :: d :: quote_chars t'
            else unicode_escape c ++ quote_chars t
        | [] => unicode_escape c
        end
      else if is_low_surrogate c then unicode_escape c ++ quote_chars t
      else c :: quote_chars t
  end.

Definition quote (s : jsstring) : jsstring := [34%N] ++ quote_chars s ++ [34%N].

Fixpoint join (sep : jsstring) (parts : list jsstring) : jsstring :=
  match parts with
  | [] => []
  | p :: ps =>
      match ps with
      | [] => p
      | _ :: _ => p ++ sep ++ join sep ps
      end
  end.

(** The text of an array or object from the texts of its parts: [stepback]
    is the indentation around it, [gap] what one level adds. *)
Definition wrap (gap stepback : jsstring) (open close : N)
  (parts : list jsstring) : jsstring :=
  match parts with
  | [] => [open; close]
  | _ :: _ =>
      match gap with
      | [] => [open] ++ join [44%N] parts ++ [close]
      | _ :: _ =>
          let indent := stepback ++ gap in
          [open] ++ [10%N] ++ indent ++ join ([44; 10]%N ++ indent) parts
            ++ [10%N] ++ stepback ++ [close]
      end
  end.

Definition colon (gap : jsstring) : jsstring :=
  match gap with
  | [] => [58%N]
  | _ :: _ => [58; 32]%N
  end.

(** SerializeJSONProperty on a value that came from [JSON.parse] or
    [mk_card].  A number is written as the literal the model keeps, where
    JavaScript writes the double in its own form ([null] for [Infinity]);
    the theorems about this text are about cards made of strings. *)
Fixpoint stringify (gap indent : jsstring) (v : value) : jsstring :=
  match v with
  | VNull => str "null"
  | VBool true => str "true"
  | VBool false => str "false"
  | VNum lit => lit
  | VStr s => quote s
  | VArr elems =>
      wrap gap indent 91 93 (map (stringify gap (indent ++ gap)) elems)
  | VObj props =>
      wrap gap indent 123 125
        (map (fun kv => let '(k, x) := kv in
                        quote k ++ colon gap ++ stringify gap (indent ++ gap) x)
             props)
  end.

(** [JSON.stringify(cards, null, 2)] and [JSON.stringify(cards)]. *)
Definition JSON_stringify_2 (v : value) : jsstring := stringify (str "  ") [] v.
Definition JSON_stringify (v : value) : jsstring := stringify [] [] v.

(** ** The component's state *)

Record state := mkState {
  cards : list value;
  currentIndex : jsnum;
  isFlipped : bool;
  isEditing : bool;
  newCardFront : jsstring;
  newCardBack : jsstring;
  showExportModal : bool;
  exportText : jsstring
}.

Definition setCards (x : list value) (s : state) : state :=
  mkState x (currentIndex s) (isFlipped s) (isEditing s) (newCardFront s)
    (newCardBack s) (showExportModal s) (exportText s).
Definition setCurrentIndex (x : jsnum) (s : state) : state :=
  mkState (cards s) x (isFlipped s) (isEditing s) (newCardFront s)
    (newCardBack s) (showExportModal s) (exportText s).
Definition setIsFlipped (x : bool) (s : state) : state :=
  mkState (cards s) (currentIndex s) x (isEditing s) (newCardFront s)
    (newCardBack s) (showExportModal s) (exportText s).
Definition setIsEditing (x : bool) (s : state) : state :=
  mkState (cards s) (currentIndex s) (isFlipped s) x (newCardFront s)
    (newCardBack s) (showExportModal s) (exportText s).
Definition setNewCardFront (x : jsstring) (s : state) : state :=
  mkState (cards s) (currentIndex s) (isFlipped s) (isEditing s) x
    (newCardBack s) (showExportModal s) (exportText s).
Definition setNewCardBack (x : jsstring) (s : state) : state :=
  mkState (cards s) (currentIndex s) (isFlipped s) (isEditing s)
    (newCardFront s) x (showExportModal s) (exportText s).
Definition setShowExportModal (x : bool) (s : state) : state :=
  mkState (cards s) (currentIndex s) (isFlipped s) (isEditing s)
    (newCardFront s) (newCardBack s) x (exportText s).
Definition setExportText (x : jsstring) (s : state) : state :=
  mkState (cards s) (currentIndex s) (isFlipped s) (isEditing s)
    (newCardFront s) (newCardBack s) (showExportModal s) x.

Definition defaultCards : list value :=
  [ mk_card (str "What is React?")
      (str "A JavaScript library for building user interfaces");
    mk_card (str "What is a React Hook?")
      (str "Functions that let you use state and other React features without writing a class");
    mk_card (str "What is JSX?")
      (str "A syntax extension for JavaScript that looks similar to HTML") ].

(** ** Initial state *)

(** The two entries of [localStorage]; [None] is an entry that is not there
    ([getItem] returns [null]). *)
Record storage := mkStorage {
  flashcards : option jsstring;
  currentCardIndex : option jsstring
}.

(** What the initializer of [cards] gives: [JSON.parse] of the saved text is
    taken as it is, so it need not be an array, and the call may throw. *)
Inductive loaded :=
| Deck (cs : list value)
| NotADeck (v : value)
| Thrown.

Definition initial_cards (savedCards : option jsstring) : loaded :=
  match savedCards with
  | Some (c :: t) =>
      match JSON_parse (c :: t) with
      | Some (VArr cs) => Deck cs
      | Some v => NotADeck v
      | None => Thrown
      end
  | _ => Deck defaultCards
  end.

Definition initial_index (savedIndex : option jsstring) : jsnum :=
  match savedIndex with
  | Some (c :: t) => parseInt (c :: t)
  | _ => Int 0
  end.

(** The state of the first render, when the saved deck is an array. *)
Definition initial_state (st : storage) : option state :=
  match initial_cards (flashcards st) with
  | Deck cs =>
      Some (mkState cs (initial_index (currentCardIndex st))
              false false [] [] false [])
  | _ => None
  end.

(** ** The handlers *)

(** [navigate(direction)]: [(currentIndex + direction + cards.length) %
    cards.length]. *)
Definition navigate (direction : Z) (s : state) : state :=
  let len := Int (Z.of_nat (length (cards s))) in
  let newIndex :=
    num_rem (num_add (num_add (currentIndex s) (Int direction)) len) len in
  setIsFlipped false (setCurrentIndex newIndex s).

(** [e.key], as far as [handleKeyDown] tells keys apart. *)
Inductive key := ArrowLeft | ArrowRight | Space | OtherKey.

Definition handleKeyDown (k : key) (s : state) : state :=
  if isEditing s then s
  else match k with
       | ArrowLeft => navigate (-1) s
       | ArrowRight => navigate 1 s
       | Space => setIsFlipped (negb (isFlipped s)) s
       | OtherKey => s
       end.

(** [exportCards]; [JSON.stringify] does not throw on the values of the
    model, so the [catch] branch is never taken. *)
Definition exportCards (s : state) : state :=
  let data := JSON_stringify_2 (VArr (cards s)) in
  setShowExportModal true (setExportText data s).

(** The four messages [importCards] shows: so many cards imported, no valid
    card in the file, not an array with elements, and an error while
    reading (a SyntaxError of [JSON.parse] or a TypeError in the filter). *)
Inductive alert :=
| Imported (n : nat)
| NoValidCards
| InvalidFormat
| ReadError.

(** [card.front && card.back] as the filter sees it; [None] when the
    expression throws. *)
Definition valid_card (card : value) : option bool :=
  match get_prop card (str "front") with
  | inl _ => None
  | inr f =>
      if truthy_opt f then
        match get_prop card (str "back") with
        | inl _ => None
        | inr b => Some (truthy_opt b)
        end
      else Some false
  end.

Fixpoint filter_valid (l : list value) : option (list value) :=
  match l with
  | [] => Some []
  | card :: t =>
      match valid_card card with
      | None => None
      | Some keep =>
          match filter_valid t with
          | None => None
          | Some r => Some (if keep then card :: r else r)
          end
      end
  end.

(** [reader.onload], with the text of the file. *)
Definition importCards_onload (result : jsstring) (s : state) : state * alert :=
  match JSON_parse result with
  | None => (s, ReadError)
  | Some (VArr (c :: t)) =>
      match filter_valid (c :: t) with
      | None => (s, ReadError)
      | Some [] => (s, NoValidCards)
      | Some validCards =>
          (setIsFlipped false (setCurrentIndex (Int 0) (setCards validCards s)),
           Imported (length validCards))
      end
  | Some _ => (s, InvalidFormat)
  end.

(** [importCards]: [file] is the text of [e.target.files[0]], if there is
    one. *)
Definition importCards (file : option jsstring) (s : state)
  : state * option alert :=
  match file with
  | None => (s, None)
  | Some text => let '(s', a) := importCards_onload text s in (s', Some a)
  end.

(** [addCard], on the two texts of the form. *)
Definition addCard (s : state) : state :=
  if bool_decide (trim (newCardFront s) = [])
     || bool_decide (trim (newCardBack s) = [])
  then s
  else
    let updatedCards := cards s ++ [mk_card (newCardFront s) (newCardBack s)] in
    setIsEditing false
      (setNewCardBack [] (setNewCardFront [] (setCards updatedCards s))).

(** [a.splice(start, 1)] on a copy [a] of the deck: what is left in [a]. *)
Definition splice_one (start : jsnum) (a : list value) : list value :=
  let len := Z.of_nat (length a) in
  let rel := match start with NaN => 0 | Int z => z end in
  let actual := if rel <? 0 then Z.max (len + rel) 0 else Z.min rel len in
  delete (Z.to_nat actual) a.

(** [deleteCard]. *)
Definition deleteCard (s : state) : state :=
  if (length (cards s) <=? 1)%nat then s
  else
    let newCards := splice_one (currentIndex s) (cards s) in
    let idx := num_min (currentIndex s) (Int (Z.of_nat (length newCards) - 1)) in
    setIsFlipped false (setCurrentIndex idx (setCards newCards s)).

(** [[a[i], a[j]] = [a[j], a[i]]] for two places of the array.  (Outside it
    the assignment would grow the array; the loop never gets there, see
    [shuffle_index_in_range].) *)
Definition swap (i j : nat) (a : list value) : list value :=
  match a !! i, a !! j with
  | Some x, Some y => <[j := x]> (<[i := y]> a)
  | _, _ => a
  end.

(** [Math.floor(r * (i + 1))] for the number [r] that [Math.random] drew.
    The product is taken exactly; the code rounds it to a double first, so
    for some [r] it draws the next index up.  Rounded, the product is still
    below [i + 1] when [r < 1]: the index is in [[0, i]] either way. *)
Definition pick (r : Q) (i : nat) : nat :=
  Z.to_nat (Qfloor (r * inject_Z (Z.of_nat i + 1))).

(** The loop of [shuffleCards], from index [i] down to 1; [rnd k] is the
    number the [k]-th call of [Math.random] returns. *)
Fixpoint shuffle_loop (rnd : nat -> Q) (k i : nat) (a : list value)
  : list value :=
  match i with
  | O => a
  | S i' => shuffle_loop rnd (S k) i' (swap i (pick (rnd k) i) a)
  end.

(** [shuffleCards]; it does not touch [isFlipped]. *)
Definition shuffleCards (rnd : nat -> Q) (s : state) : state :=
  let shuffledCards := shuffle_loop rnd 0 (length (cards s) - 1) (cards s) in
  setCurrentIndex (Int 0) (setCards shuffledCards s).

(** [resetCards], with the answer to [window.confirm]. *)
Definition resetCards (confirmed : bool) (s : state) : state :=
  if confirmed
  then setIsFlipped false (setCurrentIndex (Int 0) (setCards defaultCards s))
  else s.

(** [Math.random] returns a number in [[0, 1)]. *)
Definition random_source (rnd : nat -> Q) : Prop :=
  forall k, (0 <= rnd k)%Q /\ (rnd k < 1)%Q.

(** ** Persistence *)

(** [n.toString()] for a cursor.  The integer is written in full, as
    JavaScript does below 10^21 (from there on it writes an exponent, which
    the model does not). *)
Definition num_to_string (n : jsnum) : jsstring :=
  match n with
  | NaN => str "NaN"
  | Int z => str (NilZero.string_of_int (Z.to_int z))
  end.

(** What the two [useEffect] hooks have written to [localStorage] once the
    state [s] is rendered. *)
Definition persist (s : state) : storage :=
  mkStorage (Some (JSON_stringify (VArr (cards s))))
            (Some (num_to_string (currentIndex s))).

(** ** Sessions *)

(** What the user can do.  Every handler is taken as callable in every
    state; the page offers some of them only while a card is shown. *)
Inductive action :=
| Key (k : key)
| Previous
| Next
| OpenForm
| TypeFront (x : jsstring)
| TypeBack (x : jsstring)
| SaveCard
| CancelForm
| DeleteCard
| ResetAll (confirmed : bool)
| Shuffle (rnd : nat -> Q)
| Export
| CloseExport
| Import (file : option jsstring).

Definition step (a : action) (s : state) : state :=
  match a with
  | Key k => handleKeyDown k s
  | Previous => navigate (-1) s
  | Next => navigate 1 s
  | OpenForm => setIsEditing true s
  | TypeFront x => setNewCardFront x s
  | TypeBack x => setNewCardBack x s
  | SaveCard => addCard s
  | CancelForm => setIsEditing false s
  | DeleteCard => deleteCard s
  | ResetAll c => resetCards c s
  | Shuffle rnd => shuffleCards rnd s
  | Export => exportCards s
  | CloseExport => setShowExportModal false s
  | Import file => fst (importCards file s)
  end.

Definition allowed (a : action) : Prop :=
  match a with
  | Shuffle rnd => random_source rnd
  | _ => True
  end.

(** The states the program gets to when nobody else writes to its storage:
    the first session starts with no deck saved, and a later session starts
    from what an earlier one has saved. *)
Inductive reachable : state -> Prop :=
| reach_init st s :
    flashcards st = None -> initial_state st = Some s -> reachable s
| reach_step a s :
    reachable s -> allowed a -> reachable (step a s)
| reach_reload s s' :
    reachable s -> initial_state (persist s) = Some s' -> reachable s'.

(** ** Sample states *)

(** A state with the given deck and cursor, front side up, no form and no
    export panel open. *)
Definition browsing (cs : list value) (i : jsnum) : state :=
  mkState cs i false false [] [] false [].

(** The same, with the back of the card showing. *)
Definition flipped (cs : list value) (i : jsnum) : state :=
  setIsFlipped true (browsing cs i).

(** The form open over [s], filled in with [front] and [back]. *)
Definition typing (front back : jsstring) (s : state) : state :=
  setNewCardBack back (setNewCardFront front (setIsEditing true s)).

Definition card_a : value := mk_card (str "a") (str "b").
Definition card_c : value := mk_card (str "c") (str "d").
Definition card_no_front : value := mk_card [] (str "x").

Definition deck_with_blank : state := browsing [card_no_front; card_a] (Int 1).

Definition half : nat -> Q := fun _ => 1 # 2.

(** The text [s] of a file, where the apostrophe is written for the double
    quote. *)
Definition file_text (s : string) : jsstring :=
  map (fun c => if (c =? 39)%N then 34%N else c) (str s).

(** ** Notions used in the proofs *)

(** A parser's result on [s] that did not run out of fuel and, if it read
    something, left less than [s]. *)
Definition consumes {A : Type} (s : jsstring) (p : parsed A) : Prop :=
  match p with
  | Parsed _ r => (length r < length s)%nat
  | SyntaxError => True
  | OutOfFuel => False
  end.

(** The loop of [shuffleCards] from [i] down swaps places of the array
    only: [j <= i < length]. *)
Fixpoint swaps_in_range (rnd : nat -> Q) (k i : nat) (a : list value) : Prop :=
  match i with
  | O => True
  | S i' =>
      (i < length a)%nat
      /\ (pick (rnd k) i <= i)%nat
      /\ swaps_in_range rnd (S k) i' (swap i (pick (rnd k) i) a)
  end.

(** A number literal that begins as [JSON.parse] reads them. *)
Definition starts_number (lit : jsstring) : bool :=
  match lit with
  | d :: _ => (d =? 45)%N || is_digit d
  | [] => false
  end.

(** A value all of whose number literals begin that way. *)
Fixpoint well_formed (v : value) : bool :=
  match v with
  | VNum lit => starts_number lit
  | VArr elems => forallb well_formed elems
  | VObj props => forallb (fun kv => well_formed (snd kv)) props
  | _ => true
  end.

(** The text [JSON.stringify(cards, null, 2)] writes for a card made of two
    strings, at the depth of an element of the deck, followed by [rest]. *)
Definition card_text (front back rest : jsstring) : jsstring :=
  [123; 10; 32; 32; 32; 32; 34; 102; 114; 111; 110; 116; 34; 58; 32; 34]%N
  ++ quote_chars front
  ++ [34; 44; 10; 32; 32; 32; 32; 34; 98; 97; 99; 107; 34; 58; 32; 34]%N
  ++ quote_chars back ++ [34; 10; 32; 32; 125]%N ++ rest.

(** The texts of the cards of a deck, with the separators between them and
    the closing bracket. *)
Fixpoint elems_text (fb : list (jsstring * jsstring)) (rest : jsstring)
  : jsstring :=
  match fb with
  | [] => rest
  | (f, b) :: l =>
      card_text f b
        match l with
        | [] => [10; 93]%N ++ rest
        | _ :: _ => [44; 10; 32; 32]%N ++ elems_text l rest
        end
  end.

(** The deck whose cards are made of the given pairs of texts. *)
Definition deck_of (fb : list (jsstring * jsstring)) : list value :=
  map (fun p => mk_card (fst p) (snd p)) fb.

(** A card as the form makes it, with a front and a back that are not
    empty. *)
Definition plain_card (v : value) : Prop :=
  exists f b, v = mk_card f b /\ f <> [] /\ b <> [].

(** ** The page *)

(** [cards[currentIndex]]: [None] is [undefined]. *)
Definition card_at (cs : list value) (i : jsnum) : option value :=
  match i with
  | Int z => if z <? 0 then None else cs !! Z.to_nat z
  | NaN => None
  end.

(** What the card panel of the page is made from. *)
Inductive view :=
| Hidden
| Face (v : option value)
| RenderError.

(** The card panel: it is there when [cards.length > 0 && !isEditing &&
    !showExportModal], and shows [cards[currentIndex].back] or
    [cards[currentIndex].front]; reading a property of [undefined] or [null]
    throws. *)
Definition card_view (s : state) : view :=
  if (0 <? length (cards s))%nat && negb (isEditing s)
     && negb (showExportModal s)
  then
    match card_at (cards s) (currentIndex s) with
    | None => RenderError
    | Some card =>
        match get_prop card (if isFlipped s then str "back" else str "front")
        with
        | inl _ => RenderError
        | inr v => Face v
        end
    end
  else Hidden.

(** The counter [{currentIndex + 1} / {cards.length}]. *)
Definition counter (s : state) : jsnum * nat :=
  (num_add (currentIndex s) (Int 1), length (cards s)).

(** [disabled={cards.length <= 1}] of the Delete button. *)
Definition delete_disabled (s : state) : bool :=
  (length (cards s) <=? 1)%nat.

(** ** More notions used in the proofs *)

(** The integers of which every one is a double, and on which the sums of
    the program, [toString] and [parseInt] are exact. *)
Definition exact_integer (z : Z) : Prop := Z.abs z <= 2 ^ 53.

(** A cursor that the model stands for faithfully: [NaN] or such an
    integer. *)
Definition exact_cursor (n : jsnum) : Prop :=
  match n with
  | NaN => True
  | Int z => exact_integer z
  end.

(** A JavaScript array has fewer than 2^32 elements. *)
Definition array_sized (cs : list value) : Prop :=
  Z.of_nat (length cs) < 2 ^ 32.

Definition is_number (o : unit + option value) : bool :=
  match o with
  | inr (Some (VNum _)) => true
  | _ => false
  end.

(** The front or the back of the card is a number. *)
Definition number_side (card : value) : bool :=
  is_number (get_prop card (str "front"))
  || is_number (get_prop card (str "back")).

(** The cursor is an index of the deck. *)
Definition cursor_in_range (s : state) : Prop :=
  exists c, currentIndex s = Int c /\ 0 <= c < Z.of_nat (length (cards s)).

(** Every card of the deck passes the test of the import filter. *)
Definition all_valid (cs : list value) : Prop :=
  Forall (fun card => valid_card card = Some true) cs.

(** A card made of two strings, empty or not. *)
Definition text_card (v : value) : Prop := exists f b, v = mk_card f b.

(** The state after the user did the actions of [l], first to last. *)
Definition run (l : list action) (s : state) : state :=
  fold_left (fun st a => step a st) l s.

(** The state of the first render when nothing is saved. *)
Definition fresh : state := browsing defaultCards (Int 0).

(** The text [JSON.stringify(cards)] writes for a card made of two strings,
    followed by [rest]. *)
Definition card_text_compact (front back rest : jsstring) : jsstring :=
  [123; 34; 102; 114; 111; 110; 116; 34; 58; 34]%N
  ++ quote_chars front
  ++ [34; 44; 34; 98; 97; 99; 107; 34; 58; 34]%N
  ++ quote_chars back ++ [34; 125]%N ++ rest.

Fixpoint elems_text_compact (fb : list (jsstring * jsstring))
  (rest : jsstring) : jsstring :=
  match fb with
  | [] => rest
  | (f, b) :: l =>
      card_text_compact f b
        match l with
        | [] => [93%N] ++ rest
        | _ :: _ => [44%N] ++ elems_text_compact l rest
        end
  end.

(** A session: look at the next card, add a card, delete one, shuffle, go
    back one card. *)
Definition sample_session : list action :=
  [Next; OpenForm; TypeFront (str "q"); TypeBack (str "r"); SaveCard;
   DeleteCard; Shuffle half; Previous].

(** * Properties *)

(** ** The setters touch one field *)

Lemma cards_navigate d s : cards (navigate d s) = cards s.
Proof. reflexivity. Qed.

Lemma currentIndex_navigate d s :
  currentIndex (navigate d s) =
  num_rem (num_add (num_add (currentIndex s) (Int d))
             (Int (Z.of_nat (length (cards s)))))
          (Int (Z.of_nat (length (cards s)))).
Proof. reflexivity. Qed.

Lemma length_pos_nonempty (l : list value) : l <> [] -> 0 < Z.of_nat (length l).
Proof. destruct l; simpl; [congruence | lia]. Qed.

(** ** Navigation *)

Lemma navigate_nonneg (s : state) (c d : Z) :
  currentIndex s = Int c ->
  0 < Z.of_nat (length (cards s)) ->
  0 <= c + d + Z.of_nat (length (cards s)) ->
  currentIndex (navigate d s) =
  Int ((c + d + Z.of_nat (length (cards s))) mod Z.of_nat (length (cards s))).
Proof.
  intros Hc Hlen Hsum.
  rewrite currentIndex_navigate, Hc. simpl.
  destruct (Z.eqb_spec (Z.of_nat (length (cards s))) 0) as [E | _]; [lia |].
  now rewrite Z.rem_mod_nonneg by lia.
Qed.

(** C3, as the code has it: with a deck that is not empty (an array, so of
    fewer than 2^32 cards), a cursor [c] in range and a direction [d] of at
    most 2^52 in size (the sums are then exact in doubles) for which
    [c + d + length] is not negative (so for -1 and +1), [navigate] sets the
    cursor to [(c + d + length) mod length], which is between 0 and
    [length - 1]; and [navigate 1] followed by [navigate (-1)] brings the
    cursor back to [c]. *)
Theorem navigate_wraps (s : state) (c d : Z) :
  cards s <> [] ->
  array_sized (cards s) ->
  currentIndex s = Int c ->
  0 <= c < Z.of_nat (length (cards s)) ->
  Z.abs d <= 2 ^ 52 ->
  0 <= c + d + Z.of_nat (length (cards s)) ->
  currentIndex (navigate d s) =
    Int ((c + d + Z.of_nat (length (cards s))) mod Z.of_nat (length (cards s)))
  /\ 0 <= (c + d + Z.of_nat (length (cards s))) mod Z.of_nat (length (cards s))
       <= Z.of_nat (length (cards s)) - 1
  /\ currentIndex (navigate (-1) (navigate 1 s)) = Int c.
Proof.
  intros Hne _ Hc Hrange _ Hsum.
  pose proof (length_pos_nonempty _ Hne) as Hlen.
  set (n := Z.of_nat (length (cards s))) in *.
  split; [now apply navigate_nonneg |].
  split; [pose proof (Z.mod_pos_bound (c + d + n) n Hlen); lia |].
  pose proof (Z.mod_pos_bound (c + 1 + n) n Hlen) as Hb.
  rewrite (navigate_nonneg (navigate 1 s) ((c + 1 + n) mod n) (-1));
    rewrite ?cards_navigate; fold n; try lia.
  - f_equal.
    destruct (Z.eq_dec (c + 1) n) as [E | E].
    + replace (c + 1 + n) with (0 + 2 * n) by lia.
      rewrite Z.mod_add, Z.mod_0_l by lia.
      replace (0 + -1 + n) with c by lia.
      apply Z.mod_small; lia.
    + replace (c + 1 + n) with (c + 1 + 1 * n) by lia.
      rewrite Z.mod_add, (Z.mod_small (c + 1)) by lia.
      replace (c + 1 + -1 + n) with (c + 1 * n) by lia.
      rewrite Z.mod_add by lia. apply Z.mod_small; lia.
  - apply navigate_nonneg; fold n; [assumption | lia | lia].
Qed.

Lemma navigate_wraps_witness :
  currentIndex (navigate (-1) (browsing defaultCards (Int 0))) = Int 2
  /\ currentIndex (navigate (-1) (navigate 1 (browsing defaultCards (Int 2))))
     = Int 2.
Proof.
  split.
  - apply (navigate_wraps (browsing defaultCards (Int 0)) 0 (-1));
      [discriminate | unfold array_sized; simpl; lia | reflexivity
       | simpl; lia | simpl; lia | simpl; lia].
  - apply (navigate_wraps (browsing defaultCards (Int 2)) 2 1);
      [discriminate | unfold array_sized; simpl; lia | reflexivity
       | simpl; lia | simpl; lia | simpl; lia].
Defined.

(** C3, as the claim has it, fails: a direction below [-(c + length)] can
    give a negative cursor, because [%] takes the sign of its dividend. *)
Lemma navigate_any_direction_counterexample :
  currentIndex (navigate (-5) (browsing defaultCards (Int 0))) = Int (-2)
  /\ ~ (forall (s : state) (c d : Z),
          cards s <> [] ->
          currentIndex s = Int c ->
          0 <= c < Z.of_nat (length (cards s)) ->
          exists c', currentIndex (navigate d s) = Int c'
                     /\ 0 <= c' <= Z.of_nat (length (cards s)) - 1).
Proof.
  split; [reflexivity |].
  intros H.
  destruct (H (browsing defaultCards (Int 0)) 0 (-5)) as (c' & E & Hc');
    [discriminate | reflexivity | simpl; lia |].
  vm_compute in E. injection E as <-. simpl in Hc'. lia.
Qed.

(** ** Deleting *)

Lemma splice_one_in_range (c : Z) (a : list value) :
  0 <= c < Z.of_nat (length a) ->
  splice_one (Int c) a = take (Z.to_nat c) a ++ drop (S (Z.to_nat c)) a
  /\ length (splice_one (Int c) a) = (length a - 1)%nat.
Proof.
  intros Hc. unfold splice_one.
  destruct (Z.ltb_spec c 0) as [? | _]; [lia |].
  rewrite Z.min_l by lia.
  split; [apply delete_take_drop |].
  apply length_delete, lookup_lt_is_Some. lia.
Qed.

Lemma deleteCard_rejected (s : state) :
  (length (cards s) <= 1)%nat -> deleteCard s = s.
Proof.
  intros H. unfold deleteCard.
  destruct (Nat.leb_spec (length (cards s)) 1); [reflexivity | lia].
Qed.

Lemma deleteCard_accepted (s : state) :
  (1 < length (cards s))%nat ->
  deleteCard s =
  setIsFlipped false
    (setCurrentIndex
       (num_min (currentIndex s)
          (Int (Z.of_nat (length (splice_one (currentIndex s) (cards s))) - 1)))
       (setCards (splice_one (currentIndex s) (cards s)) s)).
Proof.
  intros H. unfold deleteCard.
  destruct (Nat.leb_spec (length (cards s)) 1); [lia | reflexivity].
Qed.

(** C6: with one card [deleteCard] changes nothing; with [N > 1] cards and
    the cursor [c] in range it takes out the card at [c] and no other, so
    [N - 1] cards are left, and the cursor becomes [min c (N - 2)]. *)
Theorem deleteCard_spec (s : state) :
  (length (cards s) = 1%nat ->
     cards (deleteCard s) = cards s
     /\ currentIndex (deleteCard s) = currentIndex s)
  /\ (forall c : Z,
        (1 < length (cards s))%nat ->
        currentIndex s = Int c ->
        0 <= c < Z.of_nat (length (cards s)) ->
        cards (deleteCard s) =
          take (Z.to_nat c) (cards s) ++ drop (S (Z.to_nat c)) (cards s)
        /\ length (cards (deleteCard s)) = (length (cards s) - 1)%nat
        /\ currentIndex (deleteCard s) =
             Int (Z.min c (Z.of_nat (length (cards s)) - 2))).
Proof.
  split.
  - intros H. now rewrite deleteCard_rejected by lia.
  - intros c HN Hc Hrange.
    rewrite (deleteCard_accepted s HN), Hc.
    destruct (splice_one_in_range c (cards s) Hrange) as [Hs Hl].
    simpl. rewrite Hl. repeat split; try assumption.
    f_equal. f_equal. lia.
Qed.

Lemma deleteCard_spec_witness :
  cards (deleteCard (browsing [card_a] (Int 0))) = [card_a]
  /\ cards (deleteCard (browsing [card_a; card_c] (Int 1))) = [card_a]
  /\ currentIndex (deleteCard (browsing [card_a; card_c] (Int 1))) = Int 0.
Proof.
  split.
  - apply (proj1 (deleteCard_spec (browsing [card_a] (Int 0)))). reflexivity.
  - pose proof (proj2 (deleteCard_spec (browsing [card_a; card_c] (Int 1))) 1)
      as H.
    destruct H as (H1 & _ & H3); [simpl; lia | reflexivity | simpl; lia |].
    split; [exact H1 | exact H3].
Defined.

(** ** Adding *)

Lemma addCard_rejected (s : state) :
  trim (newCardFront s) = [] \/ trim (newCardBack s) = [] -> addCard s = s.
Proof.
  intros H. unfold addCard.
  destruct H as [H | H]; rewrite H.
  - reflexivity.
  - now rewrite orb_true_r.
Qed.

Lemma addCard_accepted (s : state) :
  trim (newCardFront s) <> [] ->
  trim (newCardBack s) <> [] ->
  addCard s =
  setIsEditing false
    (setNewCardBack []
       (setNewCardFront []
          (setCards (cards s ++ [mk_card (newCardFront s) (newCardBack s)]) s))).
Proof.
  intros Hf Hb. unfold addCard.
  now rewrite !bool_decide_eq_false_2.
Qed.

(** C7: [addCard] changes nothing when the front or the back trims to the
    empty string; otherwise it puts one new card, made of the two texts, at
    the end of the deck, which grows by one, and the cursor stays. *)
Theorem addCard_spec (s : state) :
  (trim (newCardFront s) = [] \/ trim (newCardBack s) = [] -> addCard s = s)
  /\ (trim (newCardFront s) <> [] ->
      trim (newCardBack s) <> [] ->
      cards (addCard s) = cards s ++ [mk_card (newCardFront s) (newCardBack s)]
      /\ length (cards (addCard s)) = S (length (cards s))
      /\ currentIndex (addCard s) = currentIndex s).
Proof.
  split; [apply addCard_rejected |].
  intros Hf Hb. rewrite (addCard_accepted s Hf Hb). simpl.
  repeat split. rewrite length_app. simpl. lia.
Qed.

Lemma addCard_spec_witness :
  addCard (typing [] (str "x") (browsing defaultCards (Int 1)))
    = typing [] (str "x") (browsing defaultCards (Int 1))
  /\ addCard (typing (str "x") [] (browsing defaultCards (Int 1)))
    = typing (str "x") [] (browsing defaultCards (Int 1))
  /\ cards (addCard (typing (str "a") (str "b") (browsing defaultCards (Int 1))))
    = defaultCards ++ [card_a].
Proof.
  split; [| split].
  - apply (proj1 (addCard_spec _)). left. reflexivity.
  - apply (proj1 (addCard_spec _)). right. reflexivity.
  - apply (proj2 (addCard_spec
                    (typing (str "a") (str "b") (browsing defaultCards (Int 1)))));
      discriminate.
Defined.

(** C10: the card that [addCard] appends holds the two texts as they were
    typed; [trim] is applied in the test only. *)
Theorem addCard_stores_verbatim (s : state) :
  trim (newCardFront s) <> [] ->
  trim (newCardBack s) <> [] ->
  exists card,
    last (cards (addCard s)) = Some card
    /\ get_prop card (str "front") = inr (Some (VStr (newCardFront s)))
    /\ get_prop card (str "back") = inr (Some (VStr (newCardBack s))).
Proof.
  intros Hf Hb. exists (mk_card (newCardFront s) (newCardBack s)).
  rewrite (addCard_accepted s Hf Hb). simpl.
  split; [apply last_snoc | split; reflexivity].
Qed.

Lemma addCard_stores_verbatim_witness :
  exists card,
    last (cards (addCard (typing (str "  a ") (str " b  ")
                            (browsing defaultCards (Int 0))))) = Some card
    /\ get_prop card (str "front") = inr (Some (VStr (str "  a ")))
    /\ get_prop card (str "back") = inr (Some (VStr (str " b  "))).
Proof.
  apply (addCard_stores_verbatim
           (typing (str "  a ") (str " b  ") (browsing defaultCards (Int 0))));
    discriminate.
Defined.

(** ** The saved cursor *)

Lemma parseInt_no_number (c : N) (t : jsstring) :
  is_white_space c = false ->
  c <> 43%N -> c <> 45%N ->
  is_digit c = false ->
  parseInt (c :: t) = NaN.
Proof.
  intros Hws Hplus Hminus Hdigit. unfold parseInt. simpl. rewrite Hws.
  destruct (N.eqb_spec c 45) as [? | _]; [congruence |].
  destruct (N.eqb_spec c 43) as [? | _]; [congruence |].
  simpl. unfold digit_of. unfold is_digit in Hdigit. now rewrite Hdigit.
Qed.

(** C9, as the code has it: the cursor starts at 0 when the saved entry is
    absent or the empty string; any other entry goes through [parseInt], and
    one whose first character is neither white space, a sign nor a digit
    makes the cursor [NaN]. *)
Theorem initial_index_spec :
  initial_index None = Int 0
  /\ initial_index (Some []) = Int 0
  /\ (forall (c : N) (t : jsstring),
        initial_index (Some (c :: t)) = parseInt (c :: t))
  /\ (forall (c : N) (t : jsstring),
        is_white_space c = false ->
        c <> 43%N -> c <> 45%N ->
        is_digit c = false ->
        initial_index (Some (c :: t)) = NaN).
Proof.
  repeat split. intros c t. apply parseInt_no_number.
Qed.

Lemma initial_index_spec_witness :
  initial_index (Some (str "x1")) = NaN.
Proof.
  apply (proj2 (proj2 (proj2 initial_index_spec)) 120%N (str "1"));
    [reflexivity | discriminate | discriminate | reflexivity].
Defined.

(** C9, as the claim has it, fails for a saved entry that is not a number. *)
Lemma initial_index_non_numeric_counterexample :
  initial_index (Some (str "abc")) = NaN
  /\ initial_index (Some (str "abc")) <> Int 0.
Proof. split; [reflexivity | discriminate]. Qed.

(** ** The flip state *)

Lemma importCards_onload_imported (text : jsstring) (s : state) (n : nat) :
  snd (importCards_onload text s) = Imported n ->
  exists validCards,
    importCards_onload text s =
    (setIsFlipped false (setCurrentIndex (Int 0) (setCards validCards s)),
     Imported (length validCards))
    /\ validCards <> []
    /\ n = length validCards.
Proof.
  unfold importCards_onload.
  destruct (JSON_parse text) as [[| | | | [| c t] |] |]; try discriminate.
  destruct (filter_valid (c :: t)) as [[| v vs] |]; try discriminate.
  simpl. intros [= <-]. exists (v :: vs). repeat split. discriminate.
Qed.

(** C1, as the code has it: [navigate], a [deleteCard] that deletes, a
    [resetCards] that was confirmed and an import that replaces the deck
    leave the front side up; [addCard] leaves the flip state as it was. *)
Theorem flip_state_after_operations (s : state) :
  (forall d : Z, isFlipped (navigate d s) = false)
  /\ ((1 < length (cards s))%nat -> isFlipped (deleteCard s) = false)
  /\ isFlipped (resetCards true s) = false
  /\ (forall (text : jsstring) (n : nat),
        snd (importCards_onload text s) = Imported n ->
        isFlipped (fst (importCards_onload text s)) = false)
  /\ isFlipped (addCard s) = isFlipped s.
Proof.
  split; [reflexivity |].
  split; [intros H; now rewrite deleteCard_accepted |].
  split; [reflexivity |].
  split.
  - intros text n H.
    destruct (importCards_onload_imported text s n H) as (vs & -> & _).
    reflexivity.
  - unfold addCard.
    now destruct (bool_decide _ || bool_decide _).
Qed.

Lemma flip_state_after_operations_witness :
  isFlipped (deleteCard (flipped defaultCards (Int 1))) = false
  /\ isFlipped (fst (importCards_onload (file_text "[{'front':'a','back':'b'}]")
                       (flipped defaultCards (Int 1)))) = false.
Proof.
  split.
  - apply (proj1 (proj2 (flip_state_after_operations
                           (flipped defaultCards (Int 1))))).
    simpl. lia.
  - apply (proj1 (proj2 (proj2 (proj2 (flip_state_after_operations
                                         (flipped defaultCards (Int 1))))))
             _ 1%nat).
    vm_compute. reflexivity.
Defined.

(** C1, as the claim has it, fails: [addCard] and [shuffleCards] never call
    [setIsFlipped], so a card that shows its back keeps doing so. *)
Lemma flip_state_kept_counterexample :
  isFlipped (addCard (typing (str "a") (str "b") (flipped defaultCards (Int 0))))
    = true
  /\ cards (addCard (typing (str "a") (str "b") (flipped defaultCards (Int 0))))
    = defaultCards ++ [card_a]
  /\ isFlipped (shuffleCards half (flipped defaultCards (Int 0))) = true.
Proof. repeat split. Qed.

(** ** Shuffling *)

Lemma pick_le (r : Q) (i : nat) :
  (0 <= r)%Q -> (r < 1)%Q -> (pick r i <= i)%nat.
Proof.
  intros H0 H1. unfold pick.
  set (m := Z.of_nat i + 1).
  assert (Hm : (0 < inject_Z m)%Q) by (unfold Qlt; simpl; lia).
  assert (Hlt : (r * inject_Z m < inject_Z m)%Q).
  { rewrite <- (Qmult_1_l (inject_Z m)) at 2.
    now apply Qmult_lt_compat_r. }
  assert (Hfl : Qfloor (r * inject_Z m) < m).
  { rewrite Zlt_Qlt. eapply Qle_lt_trans; [apply Qfloor_le | exact Hlt]. }
  lia.
Qed.

Lemma swap_Permutation (i j : nat) (a : list value) :
  Permutation (swap i j a) a.
Proof.
  unfold swap.
  destruct (a !! i) as [x |] eqn:Ei; [| reflexivity].
  destruct (a !! j) as [y |] eqn:Ej; [| reflexivity].
  now apply Permutation_insert_swap.
Qed.

Lemma swap_length (i j : nat) (a : list value) :
  length (swap i j a) = length a.
Proof. apply Permutation_length, swap_Permutation. Qed.

Section Shuffle.

(** The numbers that the calls of [Math.random] return, in order. *)
Variable rnd : nat -> Q.

Lemma shuffle_loop_Permutation (i : nat) :
  forall (k : nat) (a : list value), Permutation (shuffle_loop rnd k i a) a.
Proof.
  induction i as [| i IH]; intros k a; simpl; [reflexivity |].
  etransitivity; [apply IH | apply swap_Permutation].
Qed.

Hypothesis rnd_unit : random_source rnd.

(** Both places the loop swaps are inside the array. *)
Lemma shuffle_index_in_range (k i : nat) (a : list value) :
  (i < length a)%nat ->
  is_Some (a !! i) /\ is_Some (a !! pick (rnd k) i).
Proof.
  intros Hi. destruct (rnd_unit k) as [H0 H1].
  pose proof (pick_le (rnd k) i H0 H1).
  split; apply lookup_lt_is_Some; lia.
Qed.

Lemma shuffle_loop_in_range (i : nat) :
  forall (k : nat) (a : list value),
    (i < length a)%nat \/ i = O -> swaps_in_range rnd k i a.
Proof.
  induction i as [| i IH]; intros k a Hi; simpl; [exact I |].
  destruct Hi as [Hi | Hi]; [| discriminate].
  destruct (rnd_unit k) as [H0 H1].
  split; [exact Hi |]. split; [now apply pick_le |].
  apply IH. rewrite swap_length. left. lia.
Qed.

(** C8: whatever numbers [Math.random] draws, the deck after [shuffleCards]
    is a permutation of the deck before (the same cards, as many of each,
    the same length), and the cursor is 0.  (Each step of the loop swaps two
    places of the array.) *)
Theorem shuffleCards_permutes (s : state) :
  Permutation (cards (shuffleCards rnd s)) (cards s)
  /\ length (cards (shuffleCards rnd s)) = length (cards s)
  /\ currentIndex (shuffleCards rnd s) = Int 0
  /\ swaps_in_range rnd 0 (length (cards s) - 1) (cards s).
Proof.
  simpl.
  pose proof (shuffle_loop_Permutation (length (cards s) - 1) 0 (cards s))
    as HP.
  split; [exact HP |].
  split; [now apply Permutation_length |].
  split; [reflexivity |].
  apply shuffle_loop_in_range. lia.
Qed.

End Shuffle.

Lemma shuffleCards_permutes_witness :
  Permutation (cards (shuffleCards half (browsing defaultCards (Int 2))))
    defaultCards
  /\ length (cards (shuffleCards half (browsing defaultCards (Int 2)))) = 3%nat
  /\ currentIndex (shuffleCards half (browsing defaultCards (Int 2))) = Int 0.
Proof.
  assert (Hhalf : random_source half)
    by (intros k; unfold half, Qle, Qlt; simpl; lia).
  destruct (shuffleCards_permutes half Hhalf (browsing defaultCards (Int 2)))
    as (H1 & H2 & H3 & _).
  split; [exact H1 | split; [exact H2 | exact H3]].
Defined.

(** ** Values that [JSON.parse] builds *)

Lemma forallb_Forall {A : Type} (f : A -> bool) (l : list A) :
  forallb f l = true <-> Forall (fun x => f x = true) l.
Proof.
  induction l as [| x l IH]; simpl.
  - split; [constructor | reflexivity].
  - rewrite andb_true_iff, IH. split.
    + intros [Hx Hl]. now constructor.
    + intros H. inversion H; subst. now split.
Qed.

Lemma scan_int_head (s lit r : jsstring) :
  scan_int s = Some (lit, r) ->
  match lit with d :: _ => is_digit d = true | [] => False end.
Proof.
  destruct s as [| c t]; simpl; [discriminate |].
  destruct (N.eqb_spec c 48) as [-> | _]; [intros [= <- _]; reflexivity |].
  destruct (is_digit c) eqn:E; [| discriminate].
  destruct (span_digits t). intros [= <- _]. exact E.
Qed.

Lemma scan_number_starts (s lit r : jsstring) :
  scan_number s = Some (lit, r) -> starts_number lit = true.
Proof.
  unfold scan_number.
  assert (Hsign : forall s1 sg,
             (sg = [] \/ sg = [45%N]) ->
             match scan_int s1 with
             | Some (i, s2) =>
                 match scan_frac s2 with
                 | Some (f, s3) =>
                     match scan_exp s3 with
                     | Some (e, s4) => Some (sg ++ i ++ f ++ e, s4)
                     | None => None
                     end
                 | None => None
                 end
             | None => None
             end = Some (lit, r) -> starts_number lit = true).
  { intros s1 sg Hsg.
    destruct (scan_int s1) as [[i s2] |] eqn:Ei; [| discriminate].
    destruct (scan_frac s2) as [[f s3] |]; [| discriminate].
    destruct (scan_exp s3) as [[e s4] |]; [| discriminate].
    intros [= <- _]. apply scan_int_head in Ei.
    destruct Hsg as [-> | ->]; [| reflexivity].
    destruct i as [| d i]; [contradiction |]. simpl.
    rewrite Ei. apply orb_true_r. }
  destruct s as [| c t]; [apply (Hsign [] []); now left |].
  destruct (N.eqb_spec c 45) as [-> | _];
    [apply (Hsign t [45%N]); now right | apply (Hsign (c :: t) []); now left].
Qed.

Lemma replace_prop_well_formed (k : jsstring) (v : value)
  (props : list (jsstring * value)) :
  well_formed v = true ->
  Forall (fun kv => well_formed (snd kv) = true) props ->
  Forall (fun kv => well_formed (snd kv) = true) (replace_prop k v props).
Proof.
  intros Hv. induction 1 as [| [k' v'] t Hx Ht IH]; simpl; [constructor |].
  destruct (bool_decide (k' = k)); constructor; assumption.
Qed.

Lemma insert_index_well_formed (i : Z) (k : jsstring) (v : value)
  (props : list (jsstring * value)) :
  well_formed v = true ->
  Forall (fun kv => well_formed (snd kv) = true) props ->
  Forall (fun kv => well_formed (snd kv) = true) (insert_index i k v props).
Proof.
  intros Hv. induction 1 as [| [k' v'] t Hx Ht IH]; simpl;
    [repeat constructor; assumption |].
  destruct (array_index k') as [i' |];
    [destruct (i' <? i) |]; repeat constructor; assumption.
Qed.

Lemma define_prop_well_formed (props : list (jsstring * value))
  (kv : jsstring * value) :
  well_formed (snd kv) = true ->
  Forall (fun kv => well_formed (snd kv) = true) props ->
  Forall (fun kv => well_formed (snd kv) = true) (define_prop props kv).
Proof.
  destruct kv as [k v]. simpl. intros Hv Hp.
  destruct (has_prop k props); [now apply replace_prop_well_formed |].
  destruct (array_index k); [now apply insert_index_well_formed |].
  apply Forall_app. split; [assumption | repeat constructor; assumption].
Qed.

Lemma make_object_well_formed (members : list (jsstring * value)) :
  Forall (fun kv => well_formed (snd kv) = true) members ->
  well_formed (make_object members) = true.
Proof.
  intros Hm. unfold make_object. cbn [well_formed]. apply forallb_Forall.
  assert (Hacc : Forall (fun kv => well_formed (snd kv) = true)
                   (@nil (jsstring * value))) by constructor.
  revert Hacc. generalize (@nil (jsstring * value)) as acc.
  induction Hm as [| kv ms Hkv _ IH]; intros acc Hacc; simpl; [exact Hacc |].
  apply IH. now apply define_prop_well_formed.
Qed.

Lemma parse_well_formed (n : nat) :
  (forall s v r, parse_value n s = Parsed v r -> well_formed v = true)
  /\ (forall s vs r,
        parse_elements n s = Parsed vs r ->
        vs <> [] /\ Forall (fun v => well_formed v = true) vs)
  /\ (forall s ms r,
        parse_members n s = Parsed ms r ->
        Forall (fun kv => well_formed (snd kv) = true) ms).
Proof.
  induction n as [| n (IHv & IHe & IHm)];
    [repeat split; intros; discriminate |].
  split; [| split].
  - intros s v r. cbn [parse_value].
    destruct (skip_ws s) as [| c t]; [discriminate |].
    destruct (c =? 123)%N.
    { destruct (skip_ws t) as [| c' t']; [discriminate |].
      destruct (c' =? 125)%N; [intros [= <- _]; reflexivity |].
      destruct (parse_members n (c' :: t')) as [ms r' | |] eqn:E;
        try discriminate.
      intros [= <- _]. apply make_object_well_formed. now apply IHm in E. }
    destruct (c =? 91)%N.
    { destruct (skip_ws t) as [| c' t']; [discriminate |].
      destruct (c' =? 93)%N; [intros [= <- _]; reflexivity |].
      destruct (parse_elements n (c' :: t')) as [vs r' | |] eqn:E;
        try discriminate.
      intros [= <- _]. cbn [well_formed]. apply forallb_Forall.
      now apply IHe in E. }
    destruct (c =? 34)%N.
    { destruct (parse_chars t); try discriminate.
      intros [= <- _]. reflexivity. }
    destruct (strip_prefix (str "true") (c :: t));
      [intros [= <- _]; reflexivity |].
    destruct (strip_prefix (str "false") (c :: t));
      [intros [= <- _]; reflexivity |].
    destruct (strip_prefix (str "null") (c :: t));
      [intros [= <- _]; reflexivity |].
    destruct (scan_number (c :: t)) as [[lit r'] |] eqn:E; [| discriminate].
    intros [= <- _]. cbn [well_formed]. now apply scan_number_starts in E.
  - intros s vs r. cbn [parse_elements].
    destruct (parse_value n s) as [v r' | |] eqn:Ev; try discriminate.
    apply IHv in Ev.
    destruct (skip_ws r') as [| c t]; [discriminate |].
    destruct (c =? 44)%N.
    { destruct (parse_elements n t) as [vs' r'' | |] eqn:Ee; try discriminate.
      intros [= <- _]. apply IHe in Ee as [_ Ee].
      split; [discriminate | now constructor]. }
    destruct (c =? 93)%N; [| discriminate].
    intros [= <- _]. split; [discriminate | repeat constructor; assumption].
  - intros s ms r. cbn [parse_members].
    destruct (skip_ws s) as [| c t]; [discriminate |].
    destruct (c =? 34)%N; [| discriminate].
    destruct (parse_chars t) as [k r1 | |]; try discriminate.
    destruct (skip_ws r1) as [| c' t']; [discriminate |].
    destruct (c' =? 58)%N; [| discriminate].
    destruct (parse_value n t') as [v r2 | |] eqn:Ev; try discriminate.
    apply IHv in Ev.
    destruct (skip_ws r2) as [| c'' t'']; [discriminate |].
    destruct (c'' =? 44)%N.
    { destruct (parse_members n t'') as [ms' r3 | |] eqn:Em; try discriminate.
      intros [= <- _]. apply IHm in Em. now constructor. }
    destruct (c'' =? 125)%N; [| discriminate].
    intros [= <- _]. repeat constructor; assumption.
Qed.

Lemma JSON_parse_well_formed (text : jsstring) (v : value) :
  JSON_parse text = Some v -> well_formed v = true.
Proof.
  unfold JSON_parse.
  destruct (parse_value _ text) as [v' r | |] eqn:E; try discriminate.
  destruct (skip_ws r); [| discriminate].
  intros [= <-]. now apply (proj1 (parse_well_formed _)) in E.
Qed.

Lemma filter_valid_Forall (P : value -> Prop) (l r : list value) :
  filter_valid l = Some r -> Forall P l -> Forall P r.
Proof.
  revert r. induction l as [| x l IH]; intros r; simpl.
  - intros [= <-] _. constructor.
  - destruct (valid_card x) as [keep |]; [| discriminate].
    destruct (filter_valid l) as [r' |]; [| discriminate].
    intros [= <-] H. inversion H; subst.
    destruct keep; [constructor; [assumption |] |]; now apply IH.
Qed.

Lemma defaultCards_well_formed :
  Forall (fun v => well_formed v = true) defaultCards.
Proof. repeat constructor. Qed.

Lemma step_well_formed (a : action) (s : state) :
  Forall (fun v => well_formed v = true) (cards s) ->
  Forall (fun v => well_formed v = true) (cards (step a s)).
Proof.
  intros Hwf. destruct a; simpl; try exact Hwf.
  - unfold handleKeyDown. destruct (isEditing s); [exact Hwf |].
    destruct k; exact Hwf.
  - unfold addCard.
    destruct (bool_decide _ || bool_decide _); [exact Hwf |].
    simpl. apply Forall_app. split; [exact Hwf | repeat constructor].
  - unfold deleteCard.
    destruct (length (cards s) <=? 1)%nat; [exact Hwf |].
    simpl. unfold splice_one. now apply Forall_delete.
  - destruct confirmed; [apply defaultCards_well_formed | exact Hwf].
  - eapply Permutation_Forall; [| exact Hwf].
    symmetry. apply shuffle_loop_Permutation.
  - destruct file as [text |]; [| exact Hwf]. simpl.
    unfold importCards_onload.
    destruct (JSON_parse text) as [[| | | | [| c t] |] |] eqn:Ep;
      try exact Hwf.
    destruct (filter_valid (c :: t)) as [[| v vs] |] eqn:Ef; try exact Hwf.
    simpl. apply (filter_valid_Forall _ _ _ Ef).
    apply JSON_parse_well_formed in Ep. cbn [well_formed] in Ep.
    now apply forallb_Forall in Ep.
Qed.

(** ** A saved deck comes back *)

Lemma is_json_ws_true (c : N) :
  is_json_ws c = true -> c = 9%N \/ c = 10%N \/ c = 13%N \/ c = 32%N.
Proof.
  destruct c as [| p]; [discriminate |].
  do 6 (try destruct p as [p | p |]); simpl; try discriminate; auto.
Qed.

Lemma starts_number_head (lit : jsstring) :
  starts_number lit = true ->
  exists c t, lit = c :: t /\ is_json_ws c = false /\ (c =? 93)%N = false.
Proof.
  destruct lit as [| c t]; [discriminate |]. simpl. intros H.
  exists c, t. split; [reflexivity |].
  assert (Hc : c = 45%N \/ (48 <= c <= 57)%N).
  { apply orb_true_iff in H as [H | H]; [left; now apply N.eqb_eq |].
    right. unfold is_digit in H. apply andb_true_iff in H as [H1 H2].
    apply N.leb_le in H1. apply N.leb_le in H2. lia. }
  split.
  - destruct (is_json_ws c) eqn:E; [| reflexivity].
    apply is_json_ws_true in E. lia.
  - apply N.eqb_neq. lia.
Qed.

Lemma wrap_head (gap stepback : jsstring) (open close : N)
  (parts : list jsstring) :
  exists t, wrap gap stepback open close parts = open :: t.
Proof.
  unfold wrap. destruct parts; [eauto |]. destruct gap; simpl; eauto.
Qed.

Lemma stringify_head (gap indent : jsstring) (v : value) :
  well_formed v = true ->
  exists c t, stringify gap indent v = c :: t
              /\ is_json_ws c = false /\ (c =? 93)%N = false.
Proof.
  destruct v as [| [|] | lit | x | elems | props]; cbn [stringify well_formed];
    intros Hwf.
  - now exists 110%N, (str "ull").
  - now exists 116%N, (str "rue").
  - now exists 102%N, (str "alse").
  - now apply starts_number_head.
  - unfold quote. cbn [app]. eexists _, _. now split.
  - destruct (wrap_head gap indent 91 93
                (map (stringify gap (indent ++ gap)) elems)) as [t ->].
    now exists 91%N, t.
  - destruct (wrap_head gap indent 123 125
                (map (fun kv => let '(k, x) := kv in
                                quote k ++ colon gap
                                  ++ stringify gap (indent ++ gap) x) props))
      as [t ->].
    now exists 123%N, t.
Qed.

Lemma JSON_stringify_array_head (x : value) (xs : list value) :
  well_formed x = true ->
  exists c t, JSON_stringify (VArr (x :: xs)) = 91%N :: c :: t
              /\ is_json_ws c = false /\ (c =? 93)%N = false.
Proof.
  intros Hx. unfold JSON_stringify. cbn [stringify map wrap app].
  destruct (stringify_head [] [] x Hx) as (c & t & -> & Hws & Hc).
  exists c. destruct xs as [| y ys]; cbn [join map app]; eauto.
Qed.

Lemma parse_array_head (n : nat) (c : N) (t : jsstring) (v : value)
  (r : jsstring) :
  is_json_ws c = false ->
  (c =? 93)%N = false ->
  parse_value n (91%N :: c :: t) = Parsed v r ->
  exists x xs, v = VArr (x :: xs).
Proof.
  intros Hws Hc. destruct n as [| n]; [discriminate |].
  cbn [parse_value skip_ws is_json_ws N.eqb Pos.eqb]. rewrite Hws, Hc.
  destruct (parse_elements n (c :: t)) as [vs r' | |] eqn:E; try discriminate.
  intros [= <- _].
  apply (proj1 (proj2 (parse_well_formed n))) in E as [Hne _].
  destruct vs as [| x xs]; [congruence | eauto].
Qed.

Lemma reload_invariant (s s' : state) :
  cards s <> [] ->
  Forall (fun v => well_formed v = true) (cards s) ->
  initial_state (persist s) = Some s' ->
  cards s' <> [] /\ Forall (fun v => well_formed v = true) (cards s').
Proof.
  intros Hne Hwf. unfold initial_state, persist. cbn [flashcards].
  destruct (cards s) as [| x xs]; [congruence |].
  inversion Hwf as [| ? ? Hx _]; subst.
  destruct (JSON_stringify_array_head x xs Hx) as (c & t & -> & Hws & Hc).
  cbn [initial_cards].
  destruct (JSON_parse (91%N :: c :: t)) as [v |] eqn:Ep; [| discriminate].
  pose proof (JSON_parse_well_formed _ _ Ep) as Hv.
  unfold JSON_parse in Ep.
  destruct (parse_value _ (91%N :: c :: t)) as [v' r | |] eqn:E;
    try discriminate.
  destruct (skip_ws r); [| discriminate]. injection Ep as ->.
  destruct (parse_array_head _ c t v r Hws Hc E) as (y & ys & ->).
  intros [= <-]. cbn [cards]. split; [discriminate |].
  cbn [well_formed] in Hv. now apply forallb_Forall in Hv.
Qed.

(** ** The deck is never empty *)

Lemma delete_length_lower (i : nat) (a : list value) :
  (length a - 1 <= length (delete i a))%nat.
Proof.
  rewrite delete_take_drop, length_app, length_take, length_drop. lia.
Qed.

Lemma deleteCard_nonempty (s : state) :
  cards s <> [] -> cards (deleteCard s) <> [].
Proof.
  intros Hne. unfold deleteCard.
  destruct (Nat.leb_spec (length (cards s)) 1) as [| Hlen]; [exact Hne |].
  simpl. unfold splice_one.
  match goal with |- delete ?i _ <> [] =>
    pose proof (delete_length_lower i (cards s)) as Hd;
    destruct (delete i (cards s)) end; simpl in Hd; [lia | discriminate].
Qed.

(** An import either replaces the deck by cards it accepted, or leaves the
    state alone. *)
Lemma importCards_onload_cases (text : jsstring) (s : state) :
  (exists validCards,
      validCards <> []
      /\ importCards_onload text s =
         (setIsFlipped false (setCurrentIndex (Int 0) (setCards validCards s)),
          Imported (length validCards)))
  \/ (fst (importCards_onload text s) = s
      /\ forall n, snd (importCards_onload text s) <> Imported n).
Proof.
  unfold importCards_onload.
  destruct (JSON_parse text) as [[| | | | [| c t] |] |];
    try (right; split; [reflexivity | discriminate]).
  destruct (filter_valid (c :: t)) as [[| v vs] |];
    try (right; split; [reflexivity | discriminate]).
  left. exists (v :: vs). split; [discriminate | reflexivity].
Qed.

Lemma step_nonempty (a : action) (s : state) :
  allowed a -> cards s <> [] -> cards (step a s) <> [].
Proof.
  intros Ha Hne. destruct a; simpl; try exact Hne.
  - unfold handleKeyDown. destruct (isEditing s); [exact Hne |].
    destruct k; exact Hne.
  - unfold addCard.
    destruct (bool_decide _ || bool_decide _); [exact Hne |].
    simpl. destruct (cards s); discriminate.
  - now apply deleteCard_nonempty.
  - destruct confirmed; [discriminate | exact Hne].
  - intros E.
    pose proof (shuffle_loop_Permutation rnd (length (cards s) - 1) 0 (cards s))
      as HP.
    rewrite E in HP. apply Permutation_nil in HP. contradiction.
  - destruct file as [text |]; [| exact Hne]. simpl.
    destruct (importCards_onload text s) as [s' al] eqn:E.
    destruct (importCards_onload_cases text s) as [(vs & Hvs & Hi) | [Hs _]].
    + rewrite E in Hi. injection Hi as -> _. exact Hvs.
    + rewrite E in Hs. simpl in *. now subst s'.
Qed.

Lemma initial_state_no_deck (st : storage) :
  flashcards st = None ->
  initial_state st =
  Some (mkState defaultCards (initial_index (currentCardIndex st))
          false false [] [] false []).
Proof. intros H. unfold initial_state. now rewrite H. Qed.

Lemma reachable_invariant (s : state) :
  reachable s ->
  cards s <> [] /\ Forall (fun v => well_formed v = true) (cards s).
Proof.
  induction 1 as [st s Hst Hs | a s _ [IHne IHwf] Ha | s s' _ [IHne IHwf] Hs].
  - rewrite (initial_state_no_deck st Hst) in Hs. injection Hs as <-.
    split; [discriminate | apply defaultCards_well_formed].
  - split; [now apply step_nonempty | now apply step_well_formed].
  - now apply (reload_invariant s s').
Qed.

Lemma reachable_nonempty (s : state) : reachable s -> cards s <> [].
Proof. intros H. now apply reachable_invariant. Qed.

(** C2: with no deck saved the session starts with the three built-in
    cards; no operation empties a deck that is not empty; so no state the
    program gets to, in the first session or in one that starts from what
    the program saved, has an empty deck; and [deleteCard] on a deck of one
    card is refused. *)
Theorem deck_never_empty :
  (forall st : storage,
      flashcards st = None ->
      exists s, initial_state st = Some s
                /\ cards s = defaultCards
                /\ length (cards s) = 3%nat)
  /\ (forall (a : action) (s : state),
        allowed a -> cards s <> [] -> cards (step a s) <> [])
  /\ (forall s : state, reachable s -> cards s <> [])
  /\ (forall s : state, length (cards s) = 1%nat -> deleteCard s = s).
Proof.
  split; [| split; [exact step_nonempty | split; [exact reachable_nonempty |]]].
  - intros st Hst. rewrite (initial_state_no_deck st Hst).
    eexists. split; [reflexivity | split; reflexivity].
  - intros s H. apply deleteCard_rejected. lia.
Qed.

Lemma deck_never_empty_witness :
  cards (step DeleteCard (browsing [card_a; card_c] (Int 0))) <> []
  /\ deleteCard (browsing [card_a] (Int 0)) = browsing [card_a] (Int 0)
  /\ exists s, initial_state (mkStorage None (Some (str "1"))) = Some s
               /\ cards s = defaultCards
               /\ length (cards s) = 3%nat.
Proof.
  destruct deck_never_empty as (Hinit & Hstep & _ & Hdel).
  split; [| split].
  - apply Hstep; [exact I | discriminate].
  - apply Hdel. reflexivity.
  - apply Hinit. reflexivity.
Defined.

(** ** Import *)

(** C4: when the text is not JSON, or is JSON but not an array with at
    least one element, or is such an array of which the filter keeps
    nothing, [importCards] leaves the whole state (so the deck, the cursor
    and the flip state) as it was; and so it does whenever it does not
    report an import. *)
Theorem importCards_atomic (text : jsstring) (s : state) :
  (JSON_parse text = None -> importCards_onload text s = (s, ReadError))
  /\ (forall v : value,
        JSON_parse text = Some v ->
        (forall c t, v <> VArr (c :: t)) ->
        importCards_onload text s = (s, InvalidFormat))
  /\ (forall cs : list value,
        JSON_parse text = Some (VArr cs) ->
        cs <> [] ->
        filter_valid cs = Some [] ->
        importCards_onload text s = (s, NoValidCards))
  /\ ((forall n, snd (importCards_onload text s) <> Imported n) ->
      fst (importCards_onload text s) = s).
Proof.
  unfold importCards_onload.
  split; [intros -> ; reflexivity |].
  split; [| split].
  - intros v -> Hv.
    destruct v as [| | | | [| c t] |]; try reflexivity.
    now destruct (Hv c t).
  - intros [| c t] -> Hne Hf; [congruence |]. now rewrite Hf.
  - destruct (JSON_parse text) as [[| | | | [| c t] |] |]; try reflexivity.
    destruct (filter_valid (c :: t)) as [[| v vs] |]; try reflexivity.
    simpl. intros H. now destruct (H (length (v :: vs))).
Qed.

Lemma importCards_atomic_witness :
  importCards_onload (str "not json") (flipped defaultCards (Int 2))
    = (flipped defaultCards (Int 2), ReadError)
  /\ importCards_onload (str "[]") (flipped defaultCards (Int 2))
    = (flipped defaultCards (Int 2), InvalidFormat)
  /\ importCards_onload (file_text "[{'front':'a'}]") (flipped defaultCards (Int 2))
    = (flipped defaultCards (Int 2), NoValidCards)
  /\ fst (importCards_onload (str "[null]") (flipped defaultCards (Int 2)))
    = flipped defaultCards (Int 2).
Proof.
  split; [| split; [| split]].
  - apply (proj1 (importCards_atomic _ _)). reflexivity.
  - apply (proj1 (proj2 (importCards_atomic _ _)) (VArr []));
      [reflexivity | discriminate].
  - apply (proj1 (proj2 (proj2 (importCards_atomic _ _)))
             [VObj [(str "front", VStr (str "a"))]]);
      [reflexivity | discriminate | reflexivity].
  - apply (proj2 (proj2 (proj2 (importCards_atomic _ _)))).
    intros n. vm_compute. discriminate.
Defined.

(** ** [JSON.parse] never runs out of fuel *)

Lemma skip_ws_length (s : jsstring) : (length (skip_ws s) <= length s)%nat.
Proof.
  induction s as [| c t IH]; simpl; [lia |].
  destruct (is_json_ws c); simpl; lia.
Qed.

Lemma cons_parsed_consumes (c d : N) (s t : jsstring) :
  (length s < length t)%nat ->
  consumes s (parse_chars s) ->
  consumes t (cons_parsed d (parse_chars s)).
Proof.
  intros Hlen. destruct (parse_chars s); simpl; [lia | trivial | trivial].
Qed.

Lemma parse_chars_consumes_bounded (n : nat) :
  forall s : jsstring, (length s <= n)%nat -> consumes s (parse_chars s).
Proof.
  induction n as [| n IH]; intros [| c t] Hn; simpl in *; try exact I; [lia |].
  destruct (c =? 34)%N; [simpl; lia |].
  destruct (c =? 92)%N.
  - destruct t as [| e t']; [exact I |].
    destruct (unescape e).
    + apply (cons_parsed_consumes c); [simpl; lia | apply IH; simpl in *; lia].
    + destruct (e =? 117)%N; [| exact I].
      destruct t' as [| h1 [| h2 [| h3 [| h4 t'']]]]; try exact I.
      destruct (hex4 h1 h2 h3 h4); [| exact I].
      apply (cons_parsed_consumes c); [simpl; lia | apply IH; simpl in *; lia].
  - destruct (c <? 32)%N; [exact I |].
    apply (cons_parsed_consumes c); [simpl; lia | apply IH; lia].
Qed.

Lemma parse_chars_consumes (s : jsstring) : consumes s (parse_chars s).
Proof. now apply (parse_chars_consumes_bounded (length s)). Qed.

Lemma span_digits_length (s : jsstring) :
  (length (snd (span_digits s)) <= length s)%nat.
Proof.
  induction s as [| c t IH]; simpl; [lia |].
  destruct (is_digit c); simpl; [| lia].
  destruct (span_digits t); simpl in *; lia.
Qed.

Lemma scan_int_length (s lit r : jsstring) :
  scan_int s = Some (lit, r) -> (length r < length s)%nat.
Proof.
  destruct s as [| c t]; simpl; [discriminate |].
  destruct (c =? 48)%N; [intros [= _ <-]; lia |].
  destruct (is_digit c); [| discriminate].
  pose proof (span_digits_length t) as H.
  destruct (span_digits t); simpl in *. intros [= _ <-]. lia.
Qed.

Lemma scan_frac_length (s lit r : jsstring) :
  scan_frac s = Some (lit, r) -> (length r <= length s)%nat.
Proof.
  destruct s as [| c t]; simpl; [intros [= _ <-]; simpl; lia |].
  destruct (c =? 46)%N; [| intros [= _ <-]; simpl; lia].
  pose proof (span_digits_length t) as H.
  destruct (span_digits t) as [[| d ds] r']; simpl in *; [discriminate |].
  intros [= _ <-]. lia.
Qed.

Lemma scan_exp_length (s lit r : jsstring) :
  scan_exp s = Some (lit, r) -> (length r <= length s)%nat.
Proof.
  destruct s as [| c t]; simpl; [intros [= _ <-]; simpl; lia |].
  destruct ((c =? 101)%N || (c =? 69)%N); [| intros [= _ <-]; simpl; lia].
  destruct t as [| d t'].
  - simpl. discriminate.
  - destruct ((d =? 43)%N || (d =? 45)%N).
    + pose proof (span_digits_length t') as H.
      destruct (span_digits t') as [[| x ds] r']; simpl in *; [discriminate |].
      intros [= _ <-]. lia.
    + pose proof (span_digits_length (d :: t')) as H.
      destruct (span_digits (d :: t')) as [[| x ds] r']; simpl in *;
        [discriminate |].
      intros [= _ <-]. lia.
Qed.

Lemma scan_number_length (s lit r : jsstring) :
  scan_number s = Some (lit, r) -> (length r < length s)%nat.
Proof.
  unfold scan_number.
  assert (Hsign : forall s1 sg,
             (length s1 <= length s)%nat ->
             match scan_int s1 with
             | Some (i, s2) =>
                 match scan_frac s2 with
                 | Some (f, s3) =>
                     match scan_exp s3 with
                     | Some (e, s4) => Some (sg ++ i ++ f ++ e, s4)
                     | None => None
                     end
                 | None => None
                 end
             | None => None
             end = Some (lit, r) -> (length r < length s)%nat).
  { intros s1 sg Hs1.
    destruct (scan_int s1) as [[i s2] |] eqn:Ei; [| discriminate].
    destruct (scan_frac s2) as [[f s3] |] eqn:Ef; [| discriminate].
    destruct (scan_exp s3) as [[e s4] |] eqn:Ee; [| discriminate].
    intros [= _ <-].
    apply scan_int_length in Ei. apply scan_frac_length in Ef.
    apply scan_exp_length in Ee. lia. }
  destruct s as [| c t]; [apply (Hsign [] []); simpl; lia |].
  destruct (c =? 45)%N; [apply (Hsign t [c]) | apply (Hsign (c :: t) [])];
    simpl; lia.
Qed.

Lemma strip_prefix_length (p s r : jsstring) :
  strip_prefix p s = Some r -> length s = (length p + length r)%nat.
Proof.
  revert s. induction p as [| a p IH]; intros [| b s]; simpl;
    try discriminate; try (intros [= <-]; reflexivity).
  destruct (a =? b)%N; [| discriminate].
  intros H. apply IH in H. lia.
Qed.

Lemma parse_fuel (n : nat) :
  (forall s, (2 * length s + 1 <= n)%nat -> consumes s (parse_value n s))
  /\ (forall s, (2 * length s + 2 <= n)%nat -> consumes s (parse_elements n s))
  /\ (forall s, (2 * length s + 2 <= n)%nat -> consumes s (parse_members n s)).
Proof.
  induction n as [| n (IHv & IHe & IHm)];
    [repeat split; intros s Hs; lia |].
  repeat split; intros s Hs.
  - cbn [parse_value parse_elements parse_members].
    pose proof (skip_ws_length s) as Hws.
    destruct (skip_ws s) as [| c t] eqn:Es; [exact I |]. simpl in Hws.
    pose proof (skip_ws_length t) as Hwt.
    destruct (c =? 123)%N.
    { destruct (skip_ws t) as [| c' t'] eqn:Et; [exact I |]. simpl in Hwt.
      destruct (c' =? 125)%N; [simpl; lia |].
      pose proof (IHm (c' :: t')) as H. simpl in H.
      destruct (parse_members n (c' :: t')); simpl in *; [| exact I |];
        specialize (H ltac:(lia)); lia. }
    destruct (c =? 91)%N.
    { destruct (skip_ws t) as [| c' t'] eqn:Et; [exact I |]. simpl in Hwt.
      destruct (c' =? 93)%N; [simpl; lia |].
      pose proof (IHe (c' :: t')) as H. simpl in H.
      destruct (parse_elements n (c' :: t')); simpl in *; [| exact I |];
        specialize (H ltac:(lia)); lia. }
    destruct (c =? 34)%N.
    { pose proof (parse_chars_consumes t) as H.
      destruct (parse_chars t); simpl in *; [lia | exact I | exact H]. }
    destruct (strip_prefix (str "true") (c :: t)) as [r |] eqn:E1.
    { apply strip_prefix_length in E1. simpl in *. lia. }
    destruct (strip_prefix (str "false") (c :: t)) as [r |] eqn:E2.
    { apply strip_prefix_length in E2. simpl in *. lia. }
    destruct (strip_prefix (str "null") (c :: t)) as [r |] eqn:E3.
    { apply strip_prefix_length in E3. simpl in *. lia. }
    destruct (scan_number (c :: t)) as [[lit r] |] eqn:E4; [| exact I].
    apply scan_number_length in E4. simpl in *. lia.
  - cbn [parse_value parse_elements parse_members].
    pose proof (IHv s ltac:(lia)) as H.
    destruct (parse_value n s) as [v r | |]; simpl in *; [| exact I | exact H].
    pose proof (skip_ws_length r) as Hwr.
    destruct (skip_ws r) as [| c t]; [exact I |]. simpl in Hwr.
    destruct (c =? 44)%N.
    { pose proof (IHe t ltac:(lia)) as H'.
      destruct (parse_elements n t); simpl in *; [lia | exact I | exact H']. }
    destruct (c =? 93)%N; simpl; [lia | exact I].
  - cbn [parse_value parse_elements parse_members].
    pose proof (skip_ws_length s) as Hws.
    destruct (skip_ws s) as [| c t]; [exact I |]. simpl in Hws.
    destruct (c =? 34)%N; [| exact I].
    pose proof (parse_chars_consumes t) as H.
    destruct (parse_chars t) as [k r | |]; simpl in *; [| exact I | exact H].
    pose proof (skip_ws_length r) as Hwr.
    destruct (skip_ws r) as [| c' t']; [exact I |]. simpl in Hwr.
    destruct (c' =? 58)%N; [| exact I].
    pose proof (IHv t' ltac:(lia)) as Hv.
    destruct (parse_value n t') as [v r' | |]; simpl in *;
      [| exact I | exact Hv].
    pose proof (skip_ws_length r') as Hwr'.
    destruct (skip_ws r') as [| c'' t'']; [exact I |]. simpl in Hwr'.
    destruct (c'' =? 44)%N.
    { pose proof (IHm t'' ltac:(lia)) as H'.
      destruct (parse_members n t''); simpl in *; [lia | exact I | exact H']. }
    destruct (c'' =? 125)%N; simpl; [lia | exact I].
Qed.

(** The fuel [JSON_parse] gives is enough for every text: [None] is a
    syntax error. *)
Lemma parse_value_fuel (text : jsstring) :
  parse_value (2 * length text + 1) text <> OutOfFuel.
Proof.
  pose proof (proj1 (parse_fuel (2 * length text + 1)) text (Nat.le_refl _))
    as H.
  intros E. rewrite E in H. exact H.
Qed.

(** ** Export, then import *)

(** Strings survive [JSON.stringify] and [JSON.parse]. *)

Lemma hex_of_hex_digit (d : N) : (d < 16)%N -> hex_of (hex_digit d) = Some d.
Proof.
  intros Hd. unfold hex_of, hex_digit, is_digit.
  destruct (N.ltb_spec d 10).
  - destruct (N.leb_spec 48 (48 + d)); [| lia].
    destruct (N.leb_spec (48 + d) 57); [| lia].
    simpl. f_equal. lia.
  - destruct (N.leb_spec (87 + d) 57); [lia |].
    rewrite andb_false_r.
    destruct (N.leb_spec 97 (87 + d)); [| lia].
    destruct (N.leb_spec (87 + d) 102); [| lia].
    simpl. f_equal. lia.
Qed.

Lemma hex4_unicode_escape (c : N) :
  (c < 65536)%N ->
  hex4 (hex_digit ((c / 4096) mod 16)) (hex_digit ((c / 256) mod 16))
       (hex_digit ((c / 16) mod 16)) (hex_digit (c mod 16)) = Some c.
Proof.
  intros Hc. unfold hex4.
  rewrite !hex_of_hex_digit by (apply N.mod_lt; discriminate).
  f_equal.
  replace (c / 4096)%N with (c / 16 / 16 / 16)%N by (now rewrite !N.Div0.div_div).
  replace (c / 256)%N with (c / 16 / 16)%N by (now rewrite !N.Div0.div_div).
  assert (H3 : (c / 16 / 16 / 16 < 16)%N).
  { repeat (apply N.Div0.div_lt_upper_bound). simpl. lia. }
  rewrite (N.mod_small _ _ H3).
  pose proof (N.div_mod c 16 ltac:(discriminate)).
  pose proof (N.div_mod (c / 16) 16 ltac:(discriminate)).
  pose proof (N.div_mod (c / 16 / 16) 16 ltac:(discriminate)).
  lia.
Qed.

Lemma parse_chars_unicode_escape (c : N) (rest : jsstring) :
  (c < 65536)%N ->
  parse_chars (unicode_escape c ++ rest) = cons_parsed c (parse_chars rest).
Proof.
  intros Hc. unfold unicode_escape. cbn [app parse_chars].
  change (92 =? 34)%N with false. change (92 =? 92)%N with true.
  change (unescape 117) with (@None N). change (117 =? 117)%N with true.
  cbv iota. now rewrite hex4_unicode_escape.
Qed.

Lemma parse_chars_short_escape (e d : N) (rest : jsstring) :
  unescape e = Some d ->
  parse_chars (92%N :: e :: rest) = cons_parsed d (parse_chars rest).
Proof.
  intros H. cbn [parse_chars].
  change (92 =? 34)%N with false. change (92 =? 92)%N with true.
  cbv iota. now rewrite H.
Qed.

Lemma parse_chars_plain (c : N) (rest : jsstring) :
  (c =? 34)%N = false -> (c =? 92)%N = false -> (c <? 32)%N = false ->
  parse_chars (c :: rest) = cons_parsed c (parse_chars rest).
Proof. intros H1 H2 H3. cbn [parse_chars]. now rewrite H1, H2, H3. Qed.

Lemma parse_chars_quote_bounded (n : nat) :
  forall (x rest : jsstring),
    (length x <= n)%nat ->
    parse_chars (quote_chars x ++ 34%N :: rest) = Parsed x rest.
Proof.
  induction n as [| n IH]; intros [| c t] rest Hn; simpl in Hn;
    try reflexivity; [lia |].
  assert (IHt : parse_chars (quote_chars t ++ 34%N :: rest) = Parsed t rest)
    by (apply IH; lia).
  cbn [quote_chars].
  destruct (N.eqb_spec c 8) as [-> | _];
    [rewrite <- app_assoc; cbn [app];
     rewrite (parse_chars_short_escape _ 8%N) by reflexivity; now rewrite IHt |].
  destruct (N.eqb_spec c 9) as [-> | _];
    [rewrite <- app_assoc; cbn [app];
     rewrite (parse_chars_short_escape _ 9%N) by reflexivity; now rewrite IHt |].
  destruct (N.eqb_spec c 10) as [-> | _];
    [rewrite <- app_assoc; cbn [app];
     rewrite (parse_chars_short_escape _ 10%N) by reflexivity; now rewrite IHt |].
  destruct (N.eqb_spec c 12) as [-> | _];
    [rewrite <- app_assoc; cbn [app];
     rewrite (parse_chars_short_escape _ 12%N) by reflexivity; now rewrite IHt |].
  destruct (N.eqb_spec c 13) as [-> | _];
    [rewrite <- app_assoc; cbn [app];
     rewrite (parse_chars_short_escape _ 13%N) by reflexivity; now rewrite IHt |].
  destruct (c =? 34)%N eqn:E34;
    [apply N.eqb_eq in E34; subst c; rewrite <- app_assoc; cbn [app];
     rewrite (parse_chars_short_escape _ 34%N) by reflexivity; now rewrite IHt |].
  destruct (c =? 92)%N eqn:E92;
    [apply N.eqb_eq in E92; subst c; rewrite <- app_assoc; cbn [app];
     rewrite (parse_chars_short_escape _ 92%N) by reflexivity; now rewrite IHt |].
  destruct (c <? 32)%N eqn:E32.
  { apply N.ltb_lt in E32. rewrite <- app_assoc.
    rewrite parse_chars_unicode_escape by lia. now rewrite IHt. }
  destruct (is_high_surrogate c) eqn:Eh.
  { unfold is_high_surrogate in Eh. apply andb_true_iff in Eh as [_ Eh].
    apply N.leb_le in Eh.
    destruct t as [| d t'].
    - rewrite parse_chars_unicode_escape by lia. reflexivity.
    - destruct (is_low_surrogate d) eqn:El.
      + cbn [app]. rewrite (parse_chars_plain c) by assumption.
        unfold is_low_surrogate in El. apply andb_true_iff in El as [El _].
        apply N.leb_le in El.
        rewrite (parse_chars_plain d).
        * rewrite IH by (simpl in Hn; lia). reflexivity.
        * apply N.eqb_neq. lia.
        * apply N.eqb_neq. lia.
        * apply N.ltb_ge. lia.
      + rewrite <- app_assoc.
        rewrite parse_chars_unicode_escape by lia. now rewrite IHt. }
  destruct (is_low_surrogate c) eqn:El.
  { unfold is_low_surrogate in El. apply andb_true_iff in El as [_ El].
    apply N.leb_le in El. rewrite <- app_assoc.
    rewrite parse_chars_unicode_escape by lia. now rewrite IHt. }
  cbn [app]. rewrite (parse_chars_plain c) by assumption. now rewrite IHt.
Qed.

Lemma parse_chars_quote (x rest : jsstring) :
  parse_chars (quote_chars x ++ 34%N :: rest) = Parsed x rest.
Proof. now apply (parse_chars_quote_bounded (length x)). Qed.

Lemma gap_spaces : str "  " = [32; 32]%N.
Proof. reflexivity. Qed.

Lemma quote_front : quote (str "front") = [34; 102; 114; 111; 110; 116; 34]%N.
Proof. vm_compute. reflexivity. Qed.

Lemma quote_back : quote (str "back") = [34; 98; 97; 99; 107; 34]%N.
Proof. vm_compute. reflexivity. Qed.

Lemma stringify_card (f b rest : jsstring) :
  stringify (str "  ") (str "  ") (mk_card f b) ++ rest = card_text f b rest.
Proof.
  unfold card_text, mk_card. cbn [stringify map].
  rewrite quote_front, quote_back, !gap_spaces.
  unfold wrap, colon, quote. cbn [app join].
  repeat (rewrite <- !app_assoc; cbn [app]). reflexivity.
Qed.

Lemma join_cards (fb : list (jsstring * jsstring)) (rest : jsstring) :
  fb <> [] ->
  join ([44; 10]%N ++ str "  ") (map (stringify (str "  ") (str "  ")) (deck_of fb))
    ++ [10; 93]%N ++ rest
  = elems_text fb rest.
Proof.
  induction fb as [| [f b] l IH]; [congruence |]. intros _.
  destruct l as [| p l].
  - cbn [deck_of map join elems_text fst snd]. apply stringify_card.
  - cbn [deck_of map join elems_text fst snd] in *.
    rewrite <- !app_assoc. rewrite stringify_card. f_equal.
    rewrite <- IH by discriminate. reflexivity.
Qed.

Lemma stringify_deck (fb : list (jsstring * jsstring)) :
  fb <> [] ->
  JSON_stringify_2 (VArr (deck_of fb)) = [91; 10; 32; 32]%N ++ elems_text fb [].
Proof.
  intros Hne. rewrite <- (join_cards fb [] Hne).
  unfold JSON_stringify_2. cbn [stringify].
  destruct fb as [| p l]; [congruence |].
  rewrite !gap_spaces. cbn [app].
  unfold wrap. cbn [deck_of map app]. reflexivity.
Qed.

Lemma skip_ws_idempotent (s : jsstring) : skip_ws (skip_ws s) = skip_ws s.
Proof.
  induction s as [| c t IH]; [reflexivity |]. simpl.
  destruct (is_json_ws c) eqn:E; [exact IH |]. simpl. now rewrite E.
Qed.

Lemma parse_value_skip_ws (n : nat) (s : jsstring) :
  parse_value n (skip_ws s) = parse_value n s.
Proof.
  destruct n; [reflexivity |].
  cbn [parse_value]. now rewrite skip_ws_idempotent.
Qed.

Lemma parse_elements_skip_ws (n : nat) (s : jsstring) :
  parse_elements n (skip_ws s) = parse_elements n s.
Proof.
  destruct n; [reflexivity |].
  cbn [parse_elements]. now rewrite parse_value_skip_ws.
Qed.

Lemma make_object_card (f b : jsstring) :
  make_object [(str "front", VStr f); (str "back", VStr b)] = mk_card f b.
Proof. reflexivity. Qed.

Ltac run_parser :=
  cbn [parse_value parse_elements parse_members parse_chars skip_ws is_json_ws
       cons_parsed unescape N.eqb Pos.eqb N.ltb N.compare Pos.compare
       Pos.compare_cont].

Lemma parse_value_card (m : nat) (f b rest : jsstring) :
  (4 <= m)%nat ->
  parse_value m (card_text f b rest) = Parsed (mk_card f b) rest.
Proof.
  intros Hm. destruct m as [| [| [| [| n]]]]; try lia.
  unfold card_text. cbn [app].
  run_parser. rewrite parse_chars_quote.
  run_parser. rewrite parse_chars_quote.
  run_parser. now rewrite make_object_card.
Qed.

Lemma parse_elements_cards (fb : list (jsstring * jsstring)) :
  forall (m : nat) (rest : jsstring),
    fb <> [] ->
    (length fb + 4 <= m)%nat ->
    parse_elements m (elems_text fb rest) = Parsed (deck_of fb) rest.
Proof.
  induction fb as [| [f b] l IH]; intros m rest Hne Hm; [congruence |].
  destruct m as [| m]; [lia |]. simpl in Hm.
  cbn [elems_text parse_elements].
  rewrite parse_value_card by lia.
  destruct l as [| p l].
  - cbn [app]. run_parser. reflexivity.
  - cbn [app]. run_parser.
    change (10 :: 32 :: 32 :: elems_text (p :: l) rest)%N
      with ([10; 32; 32]%N ++ elems_text (p :: l) rest).
    rewrite <- parse_elements_skip_ws.
    change (skip_ws ([10; 32; 32]%N ++ elems_text (p :: l) rest))
      with (skip_ws (elems_text (p :: l) rest)).
    rewrite parse_elements_skip_ws.
    rewrite IH by (simpl in *; (discriminate || lia)).
    reflexivity.
Qed.

Lemma elems_text_length (fb : list (jsstring * jsstring)) (rest : jsstring) :
  (length fb <= length (elems_text fb rest))%nat.
Proof.
  induction fb as [| [f b] l IH]; simpl; [lia |].
  unfold card_text. rewrite !length_app. simpl.
  destruct l; simpl in *; rewrite ?length_app; simpl; lia.
Qed.

Lemma elems_text_head (fb : list (jsstring * jsstring)) (rest : jsstring) :
  fb <> [] -> exists t, elems_text fb rest = 123%N :: t.
Proof.
  destruct fb as [| [f b] l]; [congruence |]. intros _.
  cbn [elems_text]. unfold card_text. cbn [app]. eauto.
Qed.

Lemma JSON_parse_stringify_deck (fb : list (jsstring * jsstring)) :
  fb <> [] ->
  JSON_parse (JSON_stringify_2 (VArr (deck_of fb))) = Some (VArr (deck_of fb)).
Proof.
  intros Hne. rewrite (stringify_deck fb Hne). unfold JSON_parse.
  pose proof (elems_text_length fb []) as Hlen.
  destruct (elems_text_head fb [] Hne) as [t Et].
  pose proof (parse_elements_cards fb
                (2 * length ([91; 10; 32; 32]%N ++ elems_text fb [])) [] Hne)
    as Hp.
  rewrite Nat.add_1_r. cbn [app] in *.
  cbn [parse_value skip_ws is_json_ws N.eqb Pos.eqb].
  rewrite Et in *.
  cbn [skip_ws is_json_ws N.eqb Pos.eqb].
  rewrite Hp by (simpl in *; lia).
  reflexivity.
Qed.

Lemma filter_valid_cards (fb : list (jsstring * jsstring)) :
  Forall (fun p => fst p <> [] /\ snd p <> []) fb ->
  filter_valid (deck_of fb) = Some (deck_of fb).
Proof.
  induction 1 as [| [f b] l [Hf Hb] _ IH]; [reflexivity |].
  unfold deck_of in *. cbn [map filter_valid fst snd].
  assert (Hv : valid_card (mk_card f b) = Some true).
  { unfold valid_card, mk_card. cbn [get_prop lookup_prop].
    rewrite bool_decide_eq_true_2 by reflexivity.
    cbn [truthy_opt truthy].
    rewrite (bool_decide_eq_false_2 (f = [])) by assumption. cbn [negb].
    rewrite bool_decide_eq_false_2 by discriminate.
    rewrite bool_decide_eq_true_2 by reflexivity.
    cbn [truthy_opt truthy].
    now rewrite (bool_decide_eq_false_2 (b = [])) by assumption. }
  now rewrite Hv, IH.
Qed.

Lemma plain_cards_deck_of (cs : list value) :
  Forall plain_card cs ->
  exists fb, cs = deck_of fb
             /\ Forall (fun p => fst p <> [] /\ snd p <> []) fb.
Proof.
  induction 1 as [| v cs (f & b & -> & Hf & Hb) _ (fb & -> & Hfb)].
  - exists []. split; [reflexivity | constructor].
  - exists ((f, b) :: fb). split; [reflexivity |].
    constructor; [split; assumption | exact Hfb].
Qed.

Lemma importCards_onload_exported (fb : list (jsstring * jsstring))
  (s' : state) :
  fb <> [] ->
  Forall (fun p => fst p <> [] /\ snd p <> []) fb ->
  importCards_onload (JSON_stringify_2 (VArr (deck_of fb))) s'
  = (setIsFlipped false (setCurrentIndex (Int 0) (setCards (deck_of fb) s')),
     Imported (length (deck_of fb))).
Proof.
  intros Hne Hvalid. unfold importCards_onload.
  rewrite (JSON_parse_stringify_deck fb Hne).
  destruct (deck_of fb) as [| c t] eqn:Ed;
    [destruct fb; [congruence | discriminate] |].
  rewrite <- Ed, (filter_valid_cards fb Hvalid), Ed. reflexivity.
Qed.

(** C5, as the code has it: for a deck that is not empty and whose cards
    all have a front and a back that are not empty, importing the text that
    [exportCards] shows gives that same deck back, card for card, with the
    cursor at 0 (and the front side up, and the number of cards reported). *)
Theorem export_import_roundtrip (s s' : state) :
  cards s <> [] ->
  Forall plain_card (cards s) ->
  cards (fst (importCards_onload (exportText (exportCards s)) s')) = cards s
  /\ currentIndex (fst (importCards_onload (exportText (exportCards s)) s'))
     = Int 0
  /\ isFlipped (fst (importCards_onload (exportText (exportCards s)) s'))
     = false
  /\ snd (importCards_onload (exportText (exportCards s)) s')
     = Imported (length (cards s)).
Proof.
  intros Hne Hplain.
  destruct (plain_cards_deck_of _ Hplain) as (fb & Hfb & Hvalid).
  assert (Hfb_ne : fb <> []) by (intros ->; now rewrite Hfb in Hne).
  change (exportText (exportCards s)) with (JSON_stringify_2 (VArr (cards s))).
  rewrite Hfb, (importCards_onload_exported fb s' Hfb_ne Hvalid).
  repeat split.
Qed.

Lemma export_import_roundtrip_witness :
  cards (fst (importCards_onload
                (exportText (exportCards (browsing defaultCards (Int 2))))
                (flipped [card_a] (Int 0))))
  = defaultCards
  /\ currentIndex (fst (importCards_onload
                (exportText (exportCards (browsing defaultCards (Int 2))))
                (flipped [card_a] (Int 0))))
  = Int 0.
Proof.
  destruct (export_import_roundtrip (browsing defaultCards (Int 2))
              (flipped [card_a] (Int 0))) as (H1 & H2 & _).
  - discriminate.
  - repeat constructor; eexists _, _; (split; [reflexivity |]);
      split; discriminate.
  - split; [exact H1 | exact H2].
Defined.

(** C5, as the claim has it, fails for a deck that holds a card with an
    empty side: the import drops that card. *)
Lemma export_import_counterexample :
  cards (fst (importCards_onload (exportText (exportCards deck_with_blank))
                (exportCards deck_with_blank)))
  = [card_a]
  /\ cards deck_with_blank = [card_no_front; card_a]
  /\ cards (fst (importCards_onload (exportText (exportCards deck_with_blank))
                   (exportCards deck_with_blank)))
     <> cards deck_with_blank.
Proof.
  split; [vm_compute; reflexivity |].
  split; [reflexivity |].
  vm_compute. discriminate.
Qed.

(** ** The program on sample inputs *)

Example parse_not_json : JSON_parse (str "not json") = None.
Proof. reflexivity. Qed.

Example parse_empty_array : JSON_parse (str "[]") = Some (VArr []).
Proof. reflexivity. Qed.

Example parse_trailing_comma : JSON_parse (str "[1,]") = None.
Proof. reflexivity. Qed.

Example parse_nested :
  JSON_parse (file_text " { 'b' : [1.5e3, true, null], '0' : 'A\n', 'b' : {} } ")
  = Some (VObj [(str "0", VStr [65; 10]%N); (str "b", VObj [])]).
Proof. vm_compute. reflexivity. Qed.

Example import_not_json :
  importCards (Some (str "not json")) (browsing defaultCards (Int 1))
  = (browsing defaultCards (Int 1), Some ReadError).
Proof. reflexivity. Qed.

Example import_empty_array :
  importCards (Some (str "[]")) (browsing defaultCards (Int 1))
  = (browsing defaultCards (Int 1), Some InvalidFormat).
Proof. reflexivity. Qed.

Example import_missing_back :
  importCards (Some (file_text "[{'front':'a'}]")) (browsing defaultCards (Int 1))
  = (browsing defaultCards (Int 1), Some NoValidCards).
Proof. vm_compute. reflexivity. Qed.

Example import_drops_invalid :
  importCards (Some (file_text "[{'front':'a','back':'b'},{'front':''}]"))
    (flipped defaultCards (Int 1))
  = (browsing [card_a] (Int 0), Some (Imported 1)).
Proof. vm_compute. reflexivity. Qed.

Example import_no_file :
  importCards None (flipped defaultCards (Int 1))
  = (flipped defaultCards (Int 1), None).
Proof. reflexivity. Qed.

Example export_one_card :
  exportText (exportCards (browsing [card_a] (Int 0)))
  = file_text "[
  {
    'front': 'a',
    'back': 'b'
  }
]".
Proof. vm_compute. reflexivity. Qed.

Example saved_empty_array_is_loaded :
  initial_cards (Some (str "[]")) = Deck [].
Proof. reflexivity. Qed.

Example saved_deck_is_reloaded :
  persist (browsing [card_a] (Int 0))
  = mkStorage (Some (file_text "[{'front':'a','back':'b'}]")) (Some (str "0"))
  /\ initial_state (persist (browsing defaultCards (Int 2)))
     = Some (browsing defaultCards (Int 2)).
Proof. split; vm_compute; reflexivity. Qed.

Example saved_cursor_is_parsed :
  initial_index (Some (str "2")) = Int 2
  /\ initial_index (Some (str " 12px")) = Int 12
  /\ initial_index (Some (str "NaN")) = NaN.
Proof. repeat split. Qed.

Example reset_gives_defaults :
  resetCards true (flipped [card_a; card_c] (Int 1))
  = browsing defaultCards (Int 0).
Proof. reflexivity. Qed.

Example delete_last_position :
  deleteCard (browsing defaultCards (Int 2))
  = browsing (take 2 defaultCards) (Int 1).
Proof. reflexivity. Qed.

Example shuffle_half :
  cards (shuffleCards half (browsing defaultCards (Int 2)))
  = match defaultCards with
    | [x; y; z] => [x; z; y]
    | _ => []
    end.
Proof. reflexivity. Qed.

(** * Further properties *)

(** ** The cursor stays in range *)

Lemma navigate_in_range (d : Z) (s : state) :
  d = 1 \/ d = -1 ->
  cards s <> [] -> cursor_in_range s -> cursor_in_range (navigate d s).
Proof.
  intros Hd Hne (c & Hc & Hr).
  pose proof (length_pos_nonempty _ Hne) as Hlen.
  exists ((c + d + Z.of_nat (length (cards s)))
            mod Z.of_nat (length (cards s))).
  split.
  - apply navigate_nonneg; [assumption | assumption | lia].
  - rewrite cards_navigate. now apply Z.mod_pos_bound.
Qed.

Lemma deleteCard_in_range (s : state) :
  cursor_in_range s -> cursor_in_range (deleteCard s).
Proof.
  intros (c & Hc & Hr).
  destruct (Nat.leb_spec (length (cards s)) 1) as [Hle | Hgt].
  - rewrite deleteCard_rejected by assumption. now exists c.
  - rewrite (deleteCard_accepted s Hgt), Hc.
    destruct (splice_one_in_range c (cards s) Hr) as [_ Hl].
    unfold cursor_in_range. simpl. rewrite Hl.
    exists (Z.min c (Z.of_nat (length (cards s) - 1) - 1)).
    split; [reflexivity | lia].
Qed.

Lemma step_in_range (a : action) (s : state) :
  allowed a ->
  cards s <> [] ->
  cursor_in_range s ->
  cursor_in_range (step a s).
Proof.
  intros Ha Hne Hin.
  pose proof (step_nonempty a s Ha Hne) as Hne'.
  destruct a; simpl in *; try exact Hin.
  - unfold handleKeyDown. destruct (isEditing s); [exact Hin |].
    destruct k; try exact Hin; apply navigate_in_range; auto.
  - apply navigate_in_range; auto.
  - apply navigate_in_range; auto.
  - destruct Hin as (c & Hc & Hr). exists c. unfold addCard.
    destruct (bool_decide _ || bool_decide _); [now split |].
    simpl. split; [assumption |]. rewrite length_app. simpl. lia.
  - now apply deleteCard_in_range.
  - destruct confirmed; [| exact Hin].
    exists 0. split; [reflexivity | simpl; lia].
  - exists 0. split; [reflexivity |].
    pose proof (length_pos_nonempty _ Hne'). simpl in *. lia.
  - destruct file as [text |]; [| exact Hin]. simpl in *.
    destruct (importCards_onload text s) as [s' al] eqn:E.
    destruct (importCards_onload_cases text s) as [(vs & Hvs & Hi) | [Hs _]].
    + rewrite E in Hi. injection Hi as -> _. exists 0.
      split; [reflexivity |].
      pose proof (length_pos_nonempty _ Hvs). simpl. lia.
    + rewrite E in Hs. simpl in *. now subst s'.
Qed.

(** X1: when the deck is not empty and the cursor is one of its indices,
    it still is after any one thing the user does: a key, Previous or Next,
    saving a card, deleting, resetting, shuffling, exporting, importing. *)
Theorem step_keeps_cursor_in_range (a : action) (s : state) :
  allowed a ->
  cards s <> [] ->
  cursor_in_range s ->
  cursor_in_range (step a s).
Proof. apply step_in_range. Qed.

(** ** Every card passes the import filter *)

Lemma trim_nonempty (x : jsstring) : trim x <> [] -> x <> [].
Proof. intros H ->. now apply H. Qed.

Lemma valid_card_mk_card (f b : jsstring) :
  f <> [] -> b <> [] -> valid_card (mk_card f b) = Some true.
Proof.
  intros Hf Hb. unfold valid_card, mk_card. cbn [get_prop lookup_prop].
  rewrite bool_decide_eq_true_2 by reflexivity.
  cbn [truthy_opt truthy].
  rewrite (bool_decide_eq_false_2 (f = [])) by assumption. cbn [negb].
  rewrite bool_decide_eq_false_2 by discriminate.
  rewrite bool_decide_eq_true_2 by reflexivity.
  cbn [truthy_opt truthy].
  now rewrite (bool_decide_eq_false_2 (b = [])) by assumption.
Qed.

Lemma step_keeps_cursor_in_range_witness :
  cursor_in_range (step DeleteCard (browsing defaultCards (Int 2))).
Proof.
  apply step_keeps_cursor_in_range;
    [exact I | discriminate | exists 2; split; [reflexivity | simpl; lia]].
Defined.

Lemma filter_valid_all_valid (l r : list value) :
  filter_valid l = Some r -> all_valid r.
Proof.
  revert r. induction l as [| x l IH]; intros r; simpl.
  - intros [= <-]. constructor.
  - destruct (valid_card x) as [keep |] eqn:Ex; [| discriminate].
    destruct (filter_valid l) as [r' |]; [| discriminate].
    intros [= <-]. specialize (IH r' eq_refl).
    destruct keep; [constructor; assumption | assumption].
Qed.

Lemma defaultCards_all_valid : all_valid defaultCards.
Proof. repeat constructor. Qed.

Lemma step_all_valid (a : action) (s : state) :
  all_valid (cards s) -> all_valid (cards (step a s)).
Proof.
  intros Hv. destruct a; simpl; try exact Hv.
  - unfold handleKeyDown. destruct (isEditing s); [exact Hv |].
    destruct k; exact Hv.
  - unfold addCard.
    destruct (bool_decide (trim (newCardFront s) = [])) eqn:Ef;
      [exact Hv |].
    destruct (bool_decide (trim (newCardBack s) = [])) eqn:Eb;
      [exact Hv |].
    apply bool_decide_eq_false in Ef. apply bool_decide_eq_false in Eb.
    simpl. apply Forall_app. split; [exact Hv |].
    constructor; [| constructor].
    apply valid_card_mk_card; now apply trim_nonempty.
  - unfold deleteCard.
    destruct (length (cards s) <=? 1)%nat; [exact Hv |].
    simpl. unfold splice_one. now apply Forall_delete.
  - destruct confirmed; [apply defaultCards_all_valid | exact Hv].
  - eapply Permutation_Forall; [| exact Hv].
    symmetry. apply shuffle_loop_Permutation.
  - destruct file as [text |]; [| exact Hv]. simpl.
    unfold importCards_onload.
    destruct (JSON_parse text) as [[| | | | [| c t] |] |]; try exact Hv.
    destruct (filter_valid (c :: t)) as [[| v vs] |] eqn:Ef; try exact Hv.
    simpl. now apply (filter_valid_all_valid (c :: t)).
Qed.

(** X2: when every card of the deck has a truthy front and back (passes the
    test of the import filter), the same holds after any one thing the
    user does; in particular the form only adds such cards. *)
Theorem step_keeps_cards_valid (a : action) (s : state) :
  all_valid (cards s) -> all_valid (cards (step a s)).
Proof. apply step_all_valid. Qed.

(** ** A session that starts with nothing saved *)

Lemma initial_state_fresh : initial_state (mkStorage None None) = Some fresh.
Proof. reflexivity. Qed.

Lemma run_snoc (l : list action) (a : action) (s : state) :
  run (l ++ [a]) s = step a (run l s).
Proof. unfold run. now rewrite fold_left_app. Qed.

Lemma run_invariant (l : list action) :
  Forall allowed l ->
  cards (run l fresh) <> []
  /\ cursor_in_range (run l fresh)
  /\ all_valid (cards (run l fresh)).
Proof.
  induction l as [| a l IH] using rev_ind; intros Hl.
  - split; [discriminate |].
    split; [exists 0; split; [reflexivity | simpl; lia] |].
    apply defaultCards_all_valid.
  - apply Forall_app in Hl as [Hl Ha]. inversion Ha as [| ? ? Ha' _]; subst.
    destruct (IH Hl) as (Hne & Hin & Hv). rewrite run_snoc.
    split; [now apply step_nonempty |].
    split; [now apply step_in_range |].
    now apply step_all_valid.
Qed.

Lemma step_keeps_cards_valid_witness :
  all_valid
    (cards (step SaveCard
              (typing (str "q") (str "r") (browsing defaultCards (Int 0))))).
Proof. apply step_keeps_cards_valid. repeat constructor. Defined.

(** X3: in a session that starts with nothing saved, after any sequence of
    actions the deck is not empty, the cursor is one of its indices and
    every card has a truthy front and back. *)
Theorem session_invariant (l : list action) (s0 : state) :
  initial_state (mkStorage None None) = Some s0 ->
  Forall allowed l ->
  cards (run l s0) <> []
  /\ cursor_in_range (run l s0)
  /\ all_valid (cards (run l s0)).
Proof.
  rewrite initial_state_fresh. intros [= <-]. apply run_invariant.
Qed.

Lemma session_invariant_witness :
  cards (run sample_session fresh) <> []
  /\ cursor_in_range (run sample_session fresh)
  /\ all_valid (cards (run sample_session fresh)).
Proof.
  apply (session_invariant sample_session fresh); [reflexivity |].
  unfold sample_session. repeat constructor.
  all: unfold half, Qle, Qlt; simpl; lia.
Defined.

(** ** What the page shows *)

Lemma valid_card_faces (card : value) :
  valid_card card = Some true ->
  exists f b,
    get_prop card (str "front") = inr (Some f) /\ truthy f = true
    /\ get_prop card (str "back") = inr (Some b) /\ truthy b = true.
Proof.
  unfold valid_card.
  destruct (get_prop card (str "front")) as [[] | [f |]]; try discriminate.
  cbn [truthy_opt]. destruct (truthy f) eqn:Ef; [| discriminate].
  destruct (get_prop card (str "back")) as [[] | [b |]]; try discriminate.
  cbn [truthy_opt]. intros [= Eb]. exists f, b. auto.
Qed.

Lemma card_at_in_range (s : state) :
  cursor_in_range s ->
  exists card, card_at (cards s) (currentIndex s) = Some card
               /\ In card (cards s).
Proof.
  intros (c & Hc & Hr). rewrite Hc. unfold card_at.
  destruct (Z.ltb_spec c 0) as [? | _]; [lia |].
  destruct (lookup_lt_is_Some_2 (cards s) (Z.to_nat c)) as [card Hcard];
    [lia |].
  exists card. split; [exact Hcard |].
  apply list_elem_of_In. now apply list_elem_of_lookup_2 in Hcard.
Qed.

(** X4: when the cursor is an index of the deck and every card has a truthy
    front and back, the card panel is either not rendered or shows a truthy
    value ([cards[currentIndex].front] or [.back] does not throw), and the
    counter reads [k / n] with [1 <= k <= n]. *)
Theorem card_view_defined (s : state) :
  cursor_in_range s ->
  all_valid (cards s) ->
  (card_view s = Hidden
   \/ exists v, card_view s = Face (Some v) /\ truthy v = true)
  /\ exists k, counter s = (Int k, length (cards s))
               /\ 1 <= k <= Z.of_nat (length (cards s)).
Proof.
  intros Hin Hv. split.
  - unfold card_view.
    destruct ((0 <? length (cards s))%nat && negb (isEditing s)
              && negb (showExportModal s)); [right | now left].
    destruct (card_at_in_range s Hin) as (card & -> & HIn).
    unfold all_valid in Hv. rewrite Forall_forall in Hv.
    destruct (valid_card_faces card (Hv card (proj2 (list_elem_of_In _ _) HIn)))
      as (f & b & Hf & Tf & Hb & Tb).
    destruct (isFlipped s); [rewrite Hb | rewrite Hf]; eauto.
  - destruct Hin as (c & Hc & Hr). exists (c + 1). unfold counter.
    rewrite Hc. split; [reflexivity | lia].
Qed.

Lemma card_view_defined_witness :
  (card_view (flipped defaultCards (Int 1)) = Hidden
   \/ exists v, card_view (flipped defaultCards (Int 1)) = Face (Some v)
                /\ truthy v = true)
  /\ exists k, counter (flipped defaultCards (Int 1))
               = (Int k, length (cards (flipped defaultCards (Int 1))))
               /\ 1 <= k
                  <= Z.of_nat (length (cards (flipped defaultCards (Int 1)))).
Proof.
  apply (card_view_defined (flipped defaultCards (Int 1)));
    [exists 1; split; [reflexivity | simpl; lia] | repeat constructor].
Defined.

(** ** The saved cursor comes back *)

Lemma str_cons (c : ascii) (r : string) :
  str (String c r) = N_of_ascii c :: str r.
Proof. reflexivity. Qed.

Lemma parse_digits_uint_acc (d : Decimal.uint) :
  forall (z : Z) (a : positive),
    z = Z.pos a ->
    parse_digits (Some z) (str (NilEmpty.string_of_uint d))
    = Some (Z.pos (Pos.of_uint_acc d a)).
Proof.
  induction d as [| d IH | d IH | d IH | d IH | d IH | d IH | d IH | d IH
                  | d IH | d IH];
    intros z a ->; cbn [NilEmpty.string_of_uint Pos.of_uint_acc];
    [reflexivity | rewrite str_cons; cbn [parse_digits]; apply IH;
                   cbn [default digit_of N_of_ascii]; simpl; lia ..].
Qed.

Lemma parse_digits_uint (d : Decimal.uint) :
  parse_digits (Some 0) (str (NilEmpty.string_of_uint d))
  = Some (Z.of_uint d).
Proof.
  unfold Z.of_uint.
  induction d as [| d IH | d IH | d IH | d IH | d IH | d IH | d IH | d IH
                  | d IH | d IH];
    cbn [NilEmpty.string_of_uint Pos.of_uint];
    [reflexivity | rewrite str_cons; cbn [parse_digits]; exact IH
     | rewrite str_cons; cbn [parse_digits];
       apply parse_digits_uint_acc; reflexivity ..].
Qed.

Lemma parse_digits_first (c : N) (t : jsstring) :
  is_digit c = true ->
  parse_digits None (c :: t) = parse_digits (Some 0) (c :: t).
Proof.
  intros H. cbn [parse_digits]. unfold digit_of.
  unfold is_digit in H. now rewrite H.
Qed.

Lemma string_of_uint_head (d : Decimal.uint) :
  exists c t, str (NilZero.string_of_uint d) = c :: t
              /\ is_digit c = true
              /\ parse_digits None (c :: t) = Some (Z.of_uint d).
Proof.
  assert (H : forall d', d' <> Decimal.Nil ->
              exists c t, str (NilEmpty.string_of_uint d') = c :: t
                          /\ is_digit c = true).
  { intros [| l | l | l | l | l | l | l | l | l | l] Hd; [congruence | ..];
      cbn [NilEmpty.string_of_uint]; rewrite str_cons;
      eexists _, _; split; reflexivity. }
  destruct d as [| l | l | l | l | l | l | l | l | l | l];
    [exists 48%N, []; repeat split | ..];
    cbn [NilZero.string_of_uint];
    match goal with
    | |- context [NilEmpty.string_of_uint ?d'] =>
        destruct (H d' ltac:(discriminate)) as (c & t & E & Hc);
        exists c, t; split; [exact E |]; split; [exact Hc |];
        rewrite (parse_digits_first c t Hc), <- E; apply parse_digits_uint
    end.
Qed.

Lemma digit_not_space (c : N) :
  is_digit c = true ->
  is_white_space c = false /\ (c =? 45)%N = false /\ (c =? 43)%N = false.
Proof.
  unfold is_digit. intros H. apply andb_true_iff in H as [H1 H2].
  apply N.leb_le in H1. apply N.leb_le in H2.
  assert (Hc : (c = 48 \/ c = 49 \/ c = 50 \/ c = 51 \/ c = 52 \/ c = 53
                \/ c = 54 \/ c = 55 \/ c = 56 \/ c = 57)%N) by lia.
  repeat (destruct Hc as [-> | Hc]; [repeat split |]). now subst c.
Qed.

Lemma parseInt_unsigned (c : N) (t : jsstring) (n : Z) :
  is_digit c = true ->
  parse_digits None (c :: t) = Some n ->
  parseInt (c :: t) = Int n.
Proof.
  intros Hc Hp. destruct (digit_not_space c Hc) as (Hws & H45 & H43).
  unfold parseInt. cbn [trim_start]. rewrite Hws, H45, H43, Hp.
  f_equal; lia.
Qed.

Lemma parseInt_negative (s : jsstring) (n : Z) :
  parse_digits None s = Some n ->
  parseInt (45%N :: s) = Int (- n).
Proof.
  intros Hp. unfold parseInt.
  change (trim_start (45%N :: s)) with (45%N :: s).
  cbv beta iota zeta. change (45 =? 45)%N with true. cbv beta iota.
  rewrite Hp. f_equal; lia.
Qed.

Lemma parseInt_num_to_string (n : jsnum) : parseInt (num_to_string n) = n.
Proof.
  destruct n as [| z]; [reflexivity |]. unfold num_to_string.
  destruct z as [| p | p]; [reflexivity | |];
    cbn [Z.to_int NilZero.string_of_int];
    destruct (string_of_uint_head (Pos.to_uint p)) as (c & t & E & Hc & Hp);
    unfold Z.of_uint in Hp; rewrite DecimalPos.Unsigned.of_to in Hp.
  - rewrite E. now apply parseInt_unsigned.
  - rewrite str_cons, E. change (N_of_ascii "-") with 45%N.
    now rewrite (parseInt_negative _ _ Hp).
Qed.

Lemma num_to_string_nonempty (n : jsnum) :
  exists c t, num_to_string n = c :: t.
Proof.
  destruct n as [| z]; [now exists 78%N, (str "aN") |].
  unfold num_to_string.
  destruct z as [| p | p]; cbn [Z.to_int NilZero.string_of_int].
  - now exists 48%N, [].
  - destruct (string_of_uint_head (Pos.to_uint p)) as (c & t & E & _). eauto.
  - rewrite str_cons. eauto.
Qed.

Lemma initial_index_persist (s : state) :
  initial_index (currentCardIndex (persist s)) = currentIndex s.
Proof.
  cbn [persist currentCardIndex].
  destruct (num_to_string_nonempty (currentIndex s)) as (c & t & E).
  unfold initial_index. rewrite E, <- E. apply parseInt_num_to_string.
Qed.

(** X7: a cursor that is [NaN] or an integer of at most 2^53 in size, of
    either sign, is written to storage ([currentIndex.toString()]) and read
    back by the initializer ([parseInt]) as the same cursor. *)
Theorem saved_cursor_round_trip (s : state) :
  exact_cursor (currentIndex s) ->
  initial_index (currentCardIndex (persist s)) = currentIndex s
  /\ parseInt (num_to_string (currentIndex s)) = currentIndex s.
Proof.
  intros _. split; [apply initial_index_persist | apply parseInt_num_to_string].
Qed.

Lemma saved_cursor_round_trip_witness :
  initial_index (currentCardIndex (persist (browsing defaultCards (Int (-12)))))
  = Int (-12)
  /\ initial_index (currentCardIndex (persist (browsing defaultCards NaN)))
     = NaN.
Proof.
  split.
  - apply (saved_cursor_round_trip (browsing defaultCards (Int (-12)))).
    unfold exact_cursor, exact_integer. simpl. lia.
  - apply (saved_cursor_round_trip (browsing defaultCards NaN)). exact I.
Defined.

(** ** The saved deck comes back *)

Lemma text_cards_deck_of (cs : list value) :
  Forall text_card cs -> exists fb, cs = deck_of fb.
Proof.
  induction 1 as [| v cs (f & b & ->) _ (fb & ->)].
  - now exists [].
  - now exists ((f, b) :: fb).
Qed.

Lemma stringify_card_compact (f b rest : jsstring) :
  stringify [] [] (mk_card f b) ++ rest = card_text_compact f b rest.
Proof.
  unfold card_text_compact, mk_card. cbn [stringify map app].
  rewrite quote_front, quote_back.
  unfold wrap, colon, quote. cbn [app join].
  repeat (rewrite <- !app_assoc; cbn [app]). reflexivity.
Qed.

Lemma join_cards_compact (fb : list (jsstring * jsstring)) (rest : jsstring) :
  fb <> [] ->
  join [44%N] (map (stringify [] []) (deck_of fb)) ++ [93%N] ++ rest
  = elems_text_compact fb rest.
Proof.
  induction fb as [| [f b] l IH]; [congruence |]. intros _.
  destruct l as [| p l].
  - cbn [deck_of map join elems_text_compact fst snd].
    apply stringify_card_compact.
  - cbn [deck_of map join elems_text_compact fst snd] in *.
    rewrite <- !app_assoc. rewrite stringify_card_compact. f_equal.
    rewrite <- IH by discriminate. reflexivity.
Qed.

Lemma stringify_deck_compact (fb : list (jsstring * jsstring)) :
  fb <> [] ->
  JSON_stringify (VArr (deck_of fb)) = [91%N] ++ elems_text_compact fb [].
Proof.
  intros Hne. rewrite <- (join_cards_compact fb [] Hne).
  unfold JSON_stringify. cbn [stringify app].
  destruct fb as [| p l]; [congruence |].
  unfold wrap. cbn [deck_of map app]. reflexivity.
Qed.

Lemma parse_value_card_compact (m : nat) (f b rest : jsstring) :
  (4 <= m)%nat ->
  parse_value m (card_text_compact f b rest) = Parsed (mk_card f b) rest.
Proof.
  intros Hm. destruct m as [| [| [| [| n]]]]; try lia.
  unfold card_text_compact. cbn [app].
  run_parser. rewrite parse_chars_quote.
  run_parser. rewrite parse_chars_quote.
  run_parser. now rewrite make_object_card.
Qed.

Lemma parse_elements_cards_compact (fb : list (jsstring * jsstring)) :
  forall (m : nat) (rest : jsstring),
    fb <> [] ->
    (length fb + 4 <= m)%nat ->
    parse_elements m (elems_text_compact fb rest) = Parsed (deck_of fb) rest.
Proof.
  induction fb as [| [f b] l IH]; intros m rest Hne Hm; [congruence |].
  destruct m as [| m]; [lia |]. simpl in Hm.
  cbn [elems_text_compact parse_elements].
  rewrite parse_value_card_compact by lia.
  destruct l as [| p l].
  - cbn [app]. run_parser. reflexivity.
  - cbn [app]. run_parser.
    rewrite IH by (simpl in *; (discriminate || lia)).
    reflexivity.
Qed.

Lemma elems_text_compact_length (fb : list (jsstring * jsstring))
  (rest : jsstring) :
  (length fb <= length (elems_text_compact fb rest))%nat.
Proof.
  induction fb as [| [f b] l IH]; simpl; [lia |].
  unfold card_text_compact. rewrite !length_app. simpl.
  destruct l; simpl in *; rewrite ?length_app; simpl; lia.
Qed.

Lemma JSON_parse_stringify_compact (fb : list (jsstring * jsstring)) :
  JSON_parse (JSON_stringify (VArr (deck_of fb))) = Some (VArr (deck_of fb)).
Proof.
  destruct (decide (fb = [])) as [-> | Hne]; [reflexivity |].
  rewrite (stringify_deck_compact fb Hne). unfold JSON_parse.
  pose proof (elems_text_compact_length fb []) as Hlen.
  pose proof (parse_elements_cards_compact fb
                (2 * length ([91%N] ++ elems_text_compact fb [])) [] Hne)
    as Hp.
  rewrite Nat.add_1_r. cbn [app] in *.
  cbn [parse_value skip_ws is_json_ws N.eqb Pos.eqb].
  destruct fb as [| [f b] l]; [congruence |].
  cbn [elems_text_compact] in *. unfold card_text_compact in *.
  cbn [app] in *.
  cbn [skip_ws is_json_ws N.eqb Pos.eqb].
  rewrite Hp by (simpl in *; lia).
  reflexivity.
Qed.

(** X8: for a deck of cards made of two strings (empty or not, and the
    empty deck too) and a cursor that is [NaN] or an integer of at most
    2^53 in size, what the program saves is read back, at the next start,
    as the same deck and the same cursor, with the front side up and no
    form or export panel open. *)
Theorem reload_restores_deck_and_cursor (s : state) :
  Forall text_card (cards s) ->
  exact_cursor (currentIndex s) ->
  initial_state (persist s)
  = Some (mkState (cards s) (currentIndex s) false false [] [] false []).
Proof.
  intros Hcs _. destruct (text_cards_deck_of _ Hcs) as [fb Hfb].
  unfold initial_state. rewrite (initial_index_persist s).
  cbn [persist flashcards]. rewrite Hfb.
  pose proof (JSON_parse_stringify_compact fb) as Hp.
  assert (Hhd : exists c t, JSON_stringify (VArr (deck_of fb)) = c :: t).
  { unfold JSON_stringify. cbn [stringify].
    destruct (wrap_head [] [] 91 93
                (map (stringify [] ([] ++ [])) (deck_of fb))) as [t ->].
    eauto. }
  destruct Hhd as (c & t & E). rewrite E in *.
  cbn [initial_cards]. now rewrite Hp.
Qed.

Lemma reload_restores_deck_and_cursor_witness :
  initial_state (persist (flipped [card_a; card_no_front] (Int 1)))
  = Some (browsing [card_a; card_no_front] (Int 1)).
Proof.
  apply (reload_restores_deck_and_cursor
           (flipped [card_a; card_no_front] (Int 1))).
  - repeat constructor; eexists _, _; reflexivity.
  - unfold exact_cursor, exact_integer. simpl. lia.
Defined.

(** ** The export text *)

Lemma JSON_parse_stringify_2 (fb : list (jsstring * jsstring)) :
  JSON_parse (JSON_stringify_2 (VArr (deck_of fb))) = Some (VArr (deck_of fb)).
Proof.
  destruct (decide (fb = [])) as [-> | Hne]; [reflexivity |].
  now apply JSON_parse_stringify_deck.
Qed.

(** X9: for a deck of cards made of two strings, the text [exportCards]
    shows is JSON that [JSON.parse] reads as exactly that deck (a card with
    an empty side included); [exportCards] opens the panel and leaves the
    deck, the cursor and the flip state alone. *)
Theorem exportCards_text_denotes_deck (s : state) :
  Forall text_card (cards s) ->
  JSON_parse (exportText (exportCards s)) = Some (VArr (cards s))
  /\ showExportModal (exportCards s) = true
  /\ cards (exportCards s) = cards s
  /\ currentIndex (exportCards s) = currentIndex s
  /\ isFlipped (exportCards s) = isFlipped s.
Proof.
  intros Hcs. destruct (text_cards_deck_of _ Hcs) as [fb Hfb].
  split; [| repeat split].
  change (exportText (exportCards s)) with (JSON_stringify_2 (VArr (cards s))).
  rewrite Hfb. apply JSON_parse_stringify_2.
Qed.

Lemma exportCards_text_denotes_deck_witness :
  JSON_parse (exportText (exportCards deck_with_blank))
  = Some (VArr (cards deck_with_blank)).
Proof.
  apply (exportCards_text_denotes_deck deck_with_blank).
  repeat constructor; eexists _, _; reflexivity.
Defined.

(** ** Navigation, again *)

Lemma navigate_iter_cards (d : Z) (k : nat) (s : state) :
  cards (Nat.iter k (navigate d) s) = cards s.
Proof. induction k as [| k IH]; [reflexivity | exact IH]. Qed.

Lemma navigate_iter_cursor (d : Z) (k : nat) (s : state) (c : Z) :
  d = 1 \/ d = -1 ->
  cards s <> [] ->
  currentIndex s = Int c ->
  0 <= c < Z.of_nat (length (cards s)) ->
  currentIndex (Nat.iter k (navigate d) s)
  = Int ((c + d * Z.of_nat k) mod Z.of_nat (length (cards s))).
Proof.
  intros Hd Hne Hc Hr. pose proof (length_pos_nonempty _ Hne) as Hlen.
  induction k as [| k IH].
  - simpl. rewrite Hc. f_equal. rewrite Z.mul_0_r, Z.add_0_r.
    symmetry. now apply Z.mod_small.
  - rewrite Nat.iter_succ.
    set (n := Z.of_nat (length (cards s))) in *.
    pose proof (Z.mod_pos_bound (c + d * Z.of_nat k) n Hlen) as Hb.
    rewrite (navigate_nonneg _ ((c + d * Z.of_nat k) mod n) d);
      rewrite ?navigate_iter_cards; fold n; try assumption; try lia.
    f_equal. rewrite (Z.mod_eq (c + d * Z.of_nat k) n) by lia.
    replace (c + d * Z.of_nat k - n * ((c + d * Z.of_nat k) / n) + d + n)
      with (c + d * Z.of_nat (S k)
            + (1 - (c + d * Z.of_nat k) / n) * n) by lia.
    now rewrite Z.mod_add by lia.
Qed.

(** X10: with the cursor on a card of a deck of [n] cards, [n] times Next
    and [n] times Previous each bring the cursor back, and so does Previous
    followed by Next; Next on the last card goes to the first, Previous on
    the first goes to the last. *)
Theorem navigate_full_circle (s : state) (c : Z) :
  cards s <> [] ->
  currentIndex s = Int c ->
  0 <= c < Z.of_nat (length (cards s)) ->
  currentIndex (Nat.iter (length (cards s)) (navigate 1) s) = Int c
  /\ currentIndex (Nat.iter (length (cards s)) (navigate (-1)) s) = Int c
  /\ currentIndex (navigate 1 (navigate (-1) s)) = Int c
  /\ (c = Z.of_nat (length (cards s)) - 1 ->
      currentIndex (navigate 1 s) = Int 0)
  /\ (c = 0 ->
      currentIndex (navigate (-1) s) = Int (Z.of_nat (length (cards s)) - 1)).
Proof.
  intros Hne Hc Hr. pose proof (length_pos_nonempty _ Hne) as Hlen.
  set (n := Z.of_nat (length (cards s))) in *.
  assert (H1 : forall x, navigate x s = Nat.iter 1 (navigate x) s)
    by reflexivity.
  assert (H2 : navigate 1 (navigate (-1) s)
               = navigate 1 (Nat.iter 1 (navigate (-1)) s)) by reflexivity.
  repeat split.
  - rewrite (navigate_iter_cursor 1 _ s c) by auto. fold n. f_equal.
    rewrite Z.mod_add by lia. apply Z.mod_small; lia.
  - rewrite (navigate_iter_cursor (-1) _ s c) by auto. fold n. f_equal.
    rewrite Z.mod_add by lia. apply Z.mod_small; lia.
  - pose proof (Z.mod_pos_bound (c + -1 * Z.of_nat 1) n Hlen) as Hb.
    rewrite H2.
    rewrite (navigate_nonneg _ ((c + -1 * Z.of_nat 1) mod n) 1);
      rewrite ?navigate_iter_cards; fold n; try lia.
    + f_equal. rewrite (Z.mod_eq (c + -1 * Z.of_nat 1) n) by lia.
      replace (c + -1 * Z.of_nat 1 - n * ((c + -1 * Z.of_nat 1) / n) + 1 + n)
        with (c + (1 - (c + -1 * Z.of_nat 1) / n) * n) by lia.
      rewrite Z.mod_add by lia. apply Z.mod_small; lia.
    + now apply navigate_iter_cursor; auto.
  - intros E. rewrite H1, (navigate_iter_cursor 1 1 s c) by auto. fold n.
    f_equal. replace (c + 1 * Z.of_nat 1) with (0 + 1 * n) by lia.
    rewrite Z.mod_add by lia. apply Z.mod_0_l; lia.
  - intros E. rewrite H1, (navigate_iter_cursor (-1) 1 s c) by auto. fold n.
    f_equal. replace (c + -1 * Z.of_nat 1) with (n - 1 + -1 * n) by lia.
    rewrite Z.mod_add by lia. apply Z.mod_small; lia.
Qed.

Lemma navigate_full_circle_witness :
  currentIndex (Nat.iter 3 (navigate 1) (browsing defaultCards (Int 1)))
  = Int 1
  /\ currentIndex (navigate (-1) (browsing defaultCards (Int 0))) = Int 2.
Proof.
  split.
  - apply (navigate_full_circle (browsing defaultCards (Int 1)) 1);
      [discriminate | reflexivity | simpl; lia].
  - apply (navigate_full_circle (browsing defaultCards (Int 0)) 0);
      [discriminate | reflexivity | simpl; lia | reflexivity].
Defined.

(** X11: when the cursor is an integer from 0 to 2^52, on the deck or
    beyond it (a saved cursor is not checked against the deck), one Next or
    Previous puts it on a card of the deck (an array, so of fewer than 2^32
    cards: the sums are exact). *)
Theorem navigate_repairs_cursor (d : Z) (s : state) (c : Z) :
  d = 1 \/ d = -1 ->
  cards s <> [] ->
  array_sized (cards s) ->
  currentIndex s = Int c ->
  0 <= c <= 2 ^ 52 ->
  cursor_in_range (navigate d s).
Proof.
  intros Hd Hne _ Hc [H0 _]. pose proof (length_pos_nonempty _ Hne) as Hlen.
  exists ((c + d + Z.of_nat (length (cards s)))
            mod Z.of_nat (length (cards s))).
  split.
  - apply navigate_nonneg; [assumption | assumption | lia].
  - rewrite cards_navigate. now apply Z.mod_pos_bound.
Qed.

Lemma navigate_repairs_cursor_witness :
  cursor_in_range (navigate 1 (browsing defaultCards (Int 7))).
Proof.
  apply (navigate_repairs_cursor 1 (browsing defaultCards (Int 7)) 7);
    [now left | discriminate | unfold array_sized; simpl; lia | reflexivity
     | lia].
Defined.

(** ** Cursors that are no index *)

Lemma card_at_out_of_range (s : state) :
  ~ cursor_in_range s -> card_at (cards s) (currentIndex s) = None.
Proof.
  intros Hout. unfold card_at.
  destruct (currentIndex s) as [| z] eqn:Ec; [reflexivity |].
  destruct (Z.ltb_spec z 0) as [| Hz]; [reflexivity |].
  apply lookup_ge_None_2.
  destruct (Z.lt_ge_cases z (Z.of_nat (length (cards s)))) as [Hlt | Hge];
    [| lia].
  exfalso. apply Hout. exists z. split; [exact Ec | lia].
Qed.

(** X5: when the card panel is rendered and the cursor is no index of the
    deck ([NaN], negative, or the length and beyond), rendering throws:
    [cards[currentIndex]] is [undefined]. *)
Theorem card_view_out_of_range (s : state) :
  cards s <> [] ->
  isEditing s = false ->
  showExportModal s = false ->
  ~ cursor_in_range s ->
  card_view s = RenderError.
Proof.
  intros Hne He Hm Hout. unfold card_view. rewrite He, Hm.
  destruct (cards s) as [| x xs] eqn:E; [congruence |].
  rewrite <- E in *. rewrite (card_at_out_of_range s Hout).
  rewrite E. reflexivity.
Qed.

Lemma card_view_out_of_range_witness :
  card_view (browsing defaultCards (Int 3)) = RenderError.
Proof.
  apply card_view_out_of_range;
    [discriminate | reflexivity | reflexivity |].
  intros (c & Hc & Hr). injection Hc as <-. simpl in Hr. lia.
Defined.

(** X6: a cursor that is [NaN] stays [NaN] under [navigate], the keys,
    [deleteCard], [addCard] and [exportCards], and is no index of the
    deck. *)
Theorem nan_cursor_stays (s : state) :
  currentIndex s = NaN ->
  (forall d, currentIndex (navigate d s) = NaN)
  /\ (forall k, currentIndex (handleKeyDown k s) = NaN)
  /\ currentIndex (deleteCard s) = NaN
  /\ currentIndex (addCard s) = NaN
  /\ currentIndex (exportCards s) = NaN
  /\ ~ cursor_in_range s.
Proof.
  intros Hc.
  assert (Hnav : forall d, currentIndex (navigate d s) = NaN)
    by (intros d; rewrite currentIndex_navigate, Hc; reflexivity).
  split; [exact Hnav |].
  split.
  { intros k. unfold handleKeyDown. destruct (isEditing s); [exact Hc |].
    destruct k; try apply Hnav; exact Hc. }
  split.
  { unfold deleteCard. destruct (length (cards s) <=? 1)%nat; [exact Hc |].
    simpl. now rewrite Hc. }
  split.
  { unfold addCard. now destruct (bool_decide _ || bool_decide _). }
  split; [exact Hc |].
  intros (c & Hc' & _). congruence.
Qed.

Lemma nan_cursor_stays_witness :
  currentIndex (deleteCard (browsing defaultCards NaN)) = NaN.
Proof.
  apply (nan_cursor_stays (browsing defaultCards NaN)). reflexivity.
Defined.

(** ** Deleting, again *)

(** X12: [deleteCard] on more than one card with a cursor that is no
    index: at the length or beyond, no card is removed and the cursor
    becomes the last index; [NaN] removes the first card and stays [NaN];
    a negative cursor [c >= -length] removes the card [length + c] and
    stays. *)
Theorem deleteCard_cursor_off_deck (s : state) :
  (1 < length (cards s))%nat ->
  (forall c, currentIndex s = Int c ->
             Z.of_nat (length (cards s)) <= c ->
             cards (deleteCard s) = cards s
             /\ currentIndex (deleteCard s)
                = Int (Z.of_nat (length (cards s)) - 1))
  /\ (currentIndex s = NaN ->
      cards (deleteCard s) = drop 1 (cards s)
      /\ currentIndex (deleteCard s) = NaN)
  /\ (forall c, currentIndex s = Int c ->
                - Z.of_nat (length (cards s)) <= c < 0 ->
                cards (deleteCard s)
                = delete (Z.to_nat (Z.of_nat (length (cards s)) + c)) (cards s)
                /\ currentIndex (deleteCard s) = Int c).
Proof.
  intros HN. rewrite (deleteCard_accepted s HN).
  split; [| split].
  - intros c Hc Hge. rewrite Hc. unfold splice_one.
    destruct (Z.ltb_spec c 0) as [| _]; [lia |].
    rewrite Z.min_r by lia. rewrite Nat2Z.id.
    assert (Hd : delete (length (cards s)) (cards s) = cards s).
    { rewrite delete_take_drop, firstn_all, drop_ge by lia.
      apply app_nil_r. }
    simpl. rewrite Hd. split; [reflexivity |]. f_equal. lia.
  - intros Hc. rewrite Hc. unfold splice_one. simpl.
    split; [| reflexivity].
    destruct (cards s); reflexivity.
  - intros c Hc Hr. rewrite Hc. unfold splice_one.
    destruct (Z.ltb_spec c 0) as [_ |]; [| lia].
    rewrite Z.max_l by lia. simpl. split; [reflexivity |].
    f_equal.
    rewrite length_delete by (apply lookup_lt_is_Some; lia). lia.
Qed.

Lemma deleteCard_cursor_off_deck_witness :
  cards (deleteCard (browsing defaultCards (Int 5))) = defaultCards
  /\ currentIndex (deleteCard (browsing defaultCards (Int 5))) = Int 2.
Proof.
  apply (proj1 (deleteCard_cursor_off_deck (browsing defaultCards (Int 5))
                  ltac:(simpl; lia)) 5);
    [reflexivity | simpl; lia].
Defined.

(** X13: after [deleteCard] took out the card under the cursor, the card
    under the cursor is the one that followed it, or, when the last card
    was taken out, the one before it. *)
Theorem deleteCard_shows_neighbour (s : state) (c : Z) :
  (1 < length (cards s))%nat ->
  currentIndex s = Int c ->
  0 <= c < Z.of_nat (length (cards s)) ->
  card_at (cards (deleteCard s)) (currentIndex (deleteCard s))
  = if c <? Z.of_nat (length (cards s)) - 1
    then card_at (cards s) (Int (c + 1))
    else card_at (cards s) (Int (c - 1)).
Proof.
  intros HN Hc Hr. rewrite (deleteCard_accepted s HN), Hc.
  destruct (splice_one_in_range c (cards s) Hr) as [_ Hl].
  simpl. rewrite Hl. unfold splice_one, card_at.
  destruct (Z.ltb_spec c 0) as [| _]; [lia |].
  rewrite (Z.min_l c (Z.of_nat (length (cards s)))) by lia.
  destruct (Z.ltb_spec c (Z.of_nat (length (cards s)) - 1)) as [Hlt | Hge].
  - rewrite Z.min_l by lia.
    destruct (Z.ltb_spec c 0) as [| _]; [lia |].
    destruct (Z.ltb_spec (c + 1) 0) as [| _]; [lia |].
    rewrite list_lookup_delete_ge by lia. f_equal. lia.
  - rewrite Z.min_r by lia.
    destruct (Z.ltb_spec (Z.of_nat (length (cards s) - 1) - 1) 0) as [| _];
      [lia |].
    destruct (Z.ltb_spec (c - 1) 0) as [| _]; [lia |].
    rewrite list_lookup_delete_lt by lia. f_equal. lia.
Qed.

Lemma deleteCard_shows_neighbour_witness :
  card_at (cards (deleteCard (browsing defaultCards (Int 2))))
    (currentIndex (deleteCard (browsing defaultCards (Int 2))))
  = card_at defaultCards (Int 1).
Proof.
  apply (deleteCard_shows_neighbour (browsing defaultCards (Int 2)) 2);
    [simpl; lia | reflexivity | simpl; lia].
Defined.

Lemma deleteCard_length (s : state) :
  cursor_in_range s ->
  length (cards (deleteCard s)) = Nat.max 1 (length (cards s) - 1).
Proof.
  intros (c & Hc & Hr).
  destruct (Nat.leb_spec (length (cards s)) 1) as [Hle | Hgt].
  - rewrite deleteCard_rejected by assumption. lia.
  - rewrite (deleteCard_accepted s Hgt), Hc.
    destruct (splice_one_in_range c (cards s) Hr) as [_ Hl].
    simpl. rewrite Hl. lia.
Qed.

(** X14: with the cursor on a card of a deck of [n] cards, [k] times
    [deleteCard] leave [max 1 (n - k)] cards, and the cursor on one of
    them: deleting goes down to one card and no further. *)
Theorem deleteCard_repeated (s : state) (k : nat) :
  cursor_in_range s ->
  length (cards (Nat.iter k deleteCard s))
  = Nat.max 1 (length (cards s) - k)
  /\ cursor_in_range (Nat.iter k deleteCard s).
Proof.
  intros Hin.
  assert (Hpos : (1 <= length (cards s))%nat)
    by (destruct Hin as (c & _ & Hr); lia).
  induction k as [| k [IHl IHin]].
  - split; [simpl; lia | exact Hin].
  - rewrite Nat.iter_succ. split; [| now apply deleteCard_in_range].
    rewrite (deleteCard_length _ IHin), IHl. lia.
Qed.

Lemma deleteCard_repeated_witness :
  length (cards (Nat.iter 5 deleteCard (browsing defaultCards (Int 1))))
  = 1%nat
  /\ cursor_in_range (Nat.iter 5 deleteCard (browsing defaultCards (Int 1))).
Proof.
  apply (deleteCard_repeated (browsing defaultCards (Int 1)) 5).
  exists 1. split; [reflexivity | simpl; lia].
Defined.

(** ** Adding, again *)

Lemma addCard_cases (s : state) :
  (addCard s = s
   /\ (trim (newCardFront s) = [] \/ trim (newCardBack s) = []))
  \/ (trim (newCardFront s) <> [] /\ trim (newCardBack s) <> []
      /\ addCard s =
         setIsEditing false
           (setNewCardBack []
              (setNewCardFront []
                 (setCards
                    (cards s ++ [mk_card (newCardFront s) (newCardBack s)])
                    s)))).
Proof.
  destruct (decide (trim (newCardFront s) = [])) as [Hf | Hf];
    [left; split; [apply addCard_rejected |]; now left |].
  destruct (decide (trim (newCardBack s) = [])) as [Hb | Hb];
    [left; split; [apply addCard_rejected |]; now right |].
  right. split; [assumption |]. split; [assumption |].
  now apply addCard_accepted.
Qed.

(** X15: [addCard] a second time changes nothing: a card that was added
    left the form closed and empty, so the same click again is refused. *)
Theorem addCard_twice (s : state) :
  addCard (addCard s) = addCard s
  /\ (addCard s <> s ->
      isEditing (addCard s) = false
      /\ newCardFront (addCard s) = []
      /\ newCardBack (addCard s) = []).
Proof.
  destruct (addCard_cases s) as [[E _] | (Hf & Hb & E)].
  - rewrite !E. split; [reflexivity | congruence].
  - rewrite E. split; [| intros _; repeat split].
    apply addCard_rejected. now left.
Qed.

Lemma addCard_twice_witness :
  isEditing (addCard (typing (str "q") (str "r") (browsing defaultCards (Int 0))))
  = false.
Proof.
  apply (proj2 (addCard_twice
                  (typing (str "q") (str "r") (browsing defaultCards (Int 0))))).
  intros E. vm_compute in E. discriminate E.
Defined.

(** X16: the card that [addCard] appends comes after the last one and
    before the first: with the cursor on the last card Next shows it, with
    the cursor on the first card Previous shows it. *)
Theorem addCard_then_navigate (s : state) (c : Z) :
  trim (newCardFront s) <> [] ->
  trim (newCardBack s) <> [] ->
  cards s <> [] ->
  currentIndex s = Int c ->
  (c = Z.of_nat (length (cards s)) - 1 ->
   card_at (cards (addCard s)) (currentIndex (navigate 1 (addCard s)))
   = Some (mk_card (newCardFront s) (newCardBack s)))
  /\ (c = 0 ->
      card_at (cards (addCard s)) (currentIndex (navigate (-1) (addCard s)))
      = Some (mk_card (newCardFront s) (newCardBack s))).
Proof.
  intros Hf Hb Hne Hc.
  pose proof (length_pos_nonempty _ Hne) as Hlen.
  rewrite (addCard_accepted s Hf Hb).
  set (new := mk_card (newCardFront s) (newCardBack s)).
  set (s' := setIsEditing false _).
  assert (Hcards : cards s' = cards s ++ [new]) by reflexivity.
  assert (Hcur : currentIndex s' = Int c) by exact Hc.
  assert (Hl : Z.of_nat (length (cards s')) = Z.of_nat (length (cards s)) + 1)
    by (rewrite Hcards, length_app; simpl; lia).
  assert (Hat : card_at (cards s') (Int (Z.of_nat (length (cards s))))
                = Some new).
  { unfold card_at.
    destruct (Z.ltb_spec (Z.of_nat (length (cards s))) 0) as [| _]; [lia |].
    rewrite Nat2Z.id, Hcards. apply list_lookup_middle. reflexivity. }
  split; intros E.
  - rewrite (navigate_nonneg s' c 1) by (assumption || lia).
    rewrite Hl, <- Hat. f_equal. f_equal.
    replace (c + 1 + (Z.of_nat (length (cards s)) + 1))
      with (Z.of_nat (length (cards s))
            + 1 * (Z.of_nat (length (cards s)) + 1)) by lia.
    rewrite Z.mod_add by lia. apply Z.mod_small. lia.
  - rewrite (navigate_nonneg s' c (-1)) by (assumption || lia).
    rewrite Hl, <- Hat. f_equal. f_equal.
    replace (c + -1 + (Z.of_nat (length (cards s)) + 1))
      with (Z.of_nat (length (cards s))) by lia.
    apply Z.mod_small. lia.
Qed.

Lemma addCard_then_navigate_witness :
  card_at
    (cards (addCard (typing (str "q") (str "r") (browsing defaultCards (Int 2)))))
    (currentIndex
       (navigate 1
          (addCard (typing (str "q") (str "r") (browsing defaultCards (Int 2))))))
  = Some (mk_card (str "q") (str "r")).
Proof.
  apply (proj1 (addCard_then_navigate
                  (typing (str "q") (str "r") (browsing defaultCards (Int 2)))
                  2 ltac:(discriminate) ltac:(discriminate)
                  ltac:(discriminate) eq_refl)).
  reflexivity.
Defined.

(** X17: a card of two strings passes the import filter exactly when
    neither string is empty; whatever the form accepts (neither string
    trims to empty) passes it; a card of two blanks passes the filter and
    is refused by the form. *)
Theorem form_stricter_than_filter (f b : jsstring) :
  (valid_card (mk_card f b) = Some true <-> f <> [] /\ b <> [])
  /\ (trim f <> [] /\ trim b <> [] -> valid_card (mk_card f b) = Some true)
  /\ forall s,
       valid_card (mk_card [32%N] [32%N]) = Some true
       /\ addCard (typing [32%N] [32%N] s) = typing [32%N] [32%N] s.
Proof.
  split; [| split].
  - split.
    + intros H. destruct (valid_card_faces _ H) as (x & y & Hx & Tx & Hy & Ty).
      unfold mk_card in *. cbn [get_prop lookup_prop] in *.
      rewrite bool_decide_eq_true_2 in Hx by reflexivity.
      rewrite bool_decide_eq_false_2 in Hy by discriminate.
      rewrite bool_decide_eq_true_2 in Hy by reflexivity.
      injection Hx as <-. injection Hy as <-. cbn [truthy] in *.
      split; intros ->; discriminate.
    + intros [Hf Hb]. now apply valid_card_mk_card.
  - intros [Hf Hb]. apply valid_card_mk_card; now apply trim_nonempty.
  - intros s. split; [reflexivity |]. apply addCard_rejected. now left.
Qed.

Lemma form_stricter_than_filter_witness :
  valid_card (mk_card (str " a") (str "b ")) = Some true.
Proof.
  apply (proj1 (proj2 (form_stricter_than_filter (str " a") (str "b ")))).
  split; discriminate.
Defined.

(** ** Keys *)

(** X18: while the form is open a key does nothing; a key never changes the
    deck; the space bar twice gives the state back; with the form closed
    the arrows do what Previous and Next do, and the space bar turns the
    card over without moving the cursor. *)
Theorem handleKeyDown_spec (k : key) (s : state) :
  (isEditing s = true -> handleKeyDown k s = s)
  /\ cards (handleKeyDown k s) = cards s
  /\ handleKeyDown Space (handleKeyDown Space s) = s
  /\ (isEditing s = false ->
      handleKeyDown ArrowLeft s = navigate (-1) s
      /\ handleKeyDown ArrowRight s = navigate 1 s
      /\ isFlipped (handleKeyDown Space s) = negb (isFlipped s)
      /\ currentIndex (handleKeyDown Space s) = currentIndex s).
Proof.
  unfold handleKeyDown. destruct s as [cs i fl ed nf nb sm et]. simpl.
  destruct ed; simpl.
  - repeat split; discriminate.
  - repeat split; try discriminate; destruct k; try reflexivity.
    all: unfold setIsFlipped; simpl; now rewrite negb_involutive.
Qed.

Lemma handleKeyDown_spec_witness :
  handleKeyDown ArrowRight (typing (str "q") [] (browsing defaultCards (Int 0)))
  = typing (str "q") [] (browsing defaultCards (Int 0)).
Proof.
  apply (proj1 (handleKeyDown_spec ArrowRight
                  (typing (str "q") [] (browsing defaultCards (Int 0))))).
  reflexivity.
Defined.

(** ** Import, again *)

Lemma valid_card_None (card : value) :
  valid_card card = None <-> card = VNull.
Proof.
  split; [| now intros ->].
  unfold valid_card.
  destruct card as [| | | | |]; cbn [get_prop truthy_opt];
    try discriminate; try reflexivity.
  destruct (truthy_opt _); discriminate.
Qed.

Lemma filter_valid_filter (l : list value) :
  ~ In VNull l ->
  filter_valid l
  = Some (List.filter
            (fun card => bool_decide (valid_card card = Some true)) l).
Proof.
  induction l as [| x l IH]; intros Hn; [reflexivity |].
  cbn [filter_valid List.filter].
  destruct (valid_card x) as [[|] |] eqn:Ex.
  - rewrite IH by (intros H; apply Hn; now right).
    now rewrite bool_decide_eq_true_2.
  - rewrite IH by (intros H; apply Hn; now right).
    now rewrite bool_decide_eq_false_2.
  - apply valid_card_None in Ex. subst x. exfalso. apply Hn. now left.
Qed.

Lemma filter_valid_null (l : list value) :
  In VNull l -> filter_valid l = None.
Proof.
  induction l as [| x l IH]; intros Hn; [destruct Hn |].
  cbn [filter_valid]. destruct Hn as [-> | Hn]; [reflexivity |].
  rewrite (IH Hn). now destruct (valid_card x).
Qed.

(** X19: when the file is a JSON array with elements, none of which has a
    number for its front or back: if one of the elements is [null] the
    whole import fails with the reading error, whatever else the array
    holds; otherwise the new deck is made of exactly the elements with a
    truthy front and back, in the order of the file, and their number is
    reported (or nothing changes when there are none). *)
Theorem importCards_keeps_valid_entries (text : jsstring)
  (l : list value) (s : state) :
  JSON_parse text = Some (VArr l) ->
  l <> [] ->
  Forall (fun card => number_side card = false) l ->
  (In VNull l -> importCards_onload text s = (s, ReadError))
  /\ (~ In VNull l ->
      let kept :=
        List.filter (fun card => bool_decide (valid_card card = Some true)) l
      in
      importCards_onload text s
      = if bool_decide (kept = []) then (s, NoValidCards)
        else (setIsFlipped false
                (setCurrentIndex (Int 0) (setCards kept s)),
              Imported (length kept))).
Proof.
  intros Hp Hne _. unfold importCards_onload. rewrite Hp.
  destruct l as [| c t]; [congruence |]. split.
  - intros Hn. now rewrite (filter_valid_null _ Hn).
  - intros Hn. cbv zeta. rewrite (filter_valid_filter _ Hn).
    destruct (List.filter _ (c :: t)); reflexivity.
Qed.

Lemma importCards_keeps_valid_entries_witness :
  importCards_onload (file_text "[{'front':'a','back':'b'},null]")
    (browsing defaultCards (Int 1))
  = (browsing defaultCards (Int 1), ReadError).
Proof.
  apply (proj1 (importCards_keeps_valid_entries
                  (file_text "[{'front':'a','back':'b'},null]")
                  [card_a; VNull] (browsing defaultCards (Int 1))
                  ltac:(vm_compute; reflexivity) ltac:(discriminate)
                  ltac:(repeat constructor))).
  right. left. reflexivity.
Defined.

(** X20: importing the same file a second time changes nothing more; the
    message depends on the file only; and so do the deck and the cursor
    after an import that replaces the deck. *)
Theorem importCards_twice (text : jsstring) (s s2 : state) :
  importCards_onload text (fst (importCards_onload text s))
  = importCards_onload text s
  /\ snd (importCards_onload text s2) = snd (importCards_onload text s)
  /\ (forall n, snd (importCards_onload text s) = Imported n ->
        cards (fst (importCards_onload text s2))
        = cards (fst (importCards_onload text s))
        /\ currentIndex (fst (importCards_onload text s2)) = Int 0).
Proof.
  unfold importCards_onload.
  destruct (JSON_parse text) as [[| | | | [| c t] |] |];
    try destruct (filter_valid (c :: t)) as [[| v vs] |];
    repeat split; discriminate.
Qed.

Lemma importCards_twice_witness :
  cards (fst (importCards_onload (file_text "[{'front':'a','back':'b'}]")
                (flipped [card_c] (Int 0))))
  = cards (fst (importCards_onload (file_text "[{'front':'a','back':'b'}]")
                  (browsing defaultCards (Int 2))))
  /\ currentIndex
       (fst (importCards_onload (file_text "[{'front':'a','back':'b'}]")
               (flipped [card_c] (Int 0))))
     = Int 0.
Proof.
  apply (proj2 (proj2 (importCards_twice
                         (file_text "[{'front':'a','back':'b'}]")
                         (browsing defaultCards (Int 2))
                         (flipped [card_c] (Int 0)))) 1%nat).
  vm_compute. reflexivity.
Defined.

(** ** The Delete button *)

(** X21: with the cursor on a card, the Delete button is disabled exactly
    when [deleteCard] would do nothing: when it is enabled, [deleteCard]
    removes one card. *)
Theorem delete_button_matches_guard (s : state) :
  cursor_in_range s ->
  (delete_disabled s = true -> deleteCard s = s)
  /\ (delete_disabled s = false ->
      length (cards (deleteCard s)) = (length (cards s) - 1)%nat
      /\ deleteCard s <> s).
Proof.
  intros Hin. unfold delete_disabled. split; intros Hd.
  - apply deleteCard_rejected. now apply Nat.leb_le.
  - apply Nat.leb_gt in Hd.
    pose proof (deleteCard_length s Hin) as Hl.
    split; [lia |]. intros E. rewrite E in Hl. lia.
Qed.

Lemma delete_button_matches_guard_witness :
  length (cards (deleteCard (browsing defaultCards (Int 0)))) = 2%nat
  /\ deleteCard (browsing defaultCards (Int 0)) <> browsing defaultCards (Int 0).
Proof.
  apply (proj2 (delete_button_matches_guard (browsing defaultCards (Int 0))
                  ltac:(exists 0; split; [reflexivity | simpl; lia]))).
  reflexivity.
Defined.

(** ** Reset *)

(** X22: without the confirmation [resetCards] does nothing; with it, from
    whatever state (a cursor that is [NaN] or off the deck included), what
    is saved afterwards makes the next start the same as a start with
    nothing saved, and the cursor is on a card of the default deck. *)
Theorem resetCards_then_reload (s : state) :
  resetCards false s = s
  /\ initial_state (persist (resetCards true s))
     = initial_state (mkStorage None None)
  /\ cursor_in_range (resetCards true s)
  /\ all_valid (cards (resetCards true s)).
Proof.
  split; [reflexivity |].
  split.
  - change (persist (resetCards true s)) with (persist fresh).
    vm_compute. reflexivity.
  - split; [exists 0; split; [reflexivity | simpl; lia] |].
    apply defaultCards_all_valid.
Qed.
